(** * Dependency Miner: a shallow embedding of [scripts/dependency-miner.py]

    The development models the tolerant regular-expression parser
    [_parse_dependency_blocks] and the classification loops of
    [mine_repository], and proves the properties the specification
    states about them.

    Python values are modelled as follows.
    - A [str] is a sequence of Unicode code points, here [list N].
    - [None] where a [str] is expected is [option str].
    - A [dict] is an insertion-ordered association list with unique keys.
    - A [set] of strings is a [gset].
    - An operation that can raise returns a [result]. *)

From Stdlib Require Import Ascii String NArith DecimalString.
From stdpp Require Import gmap strings list.

(** ** Python strings *)

Abbreviation str := (list N).

(** A string literal of the source, as code points. *)
Fixpoint lit (s : string) : str :=
  match s with
  | EmptyString => []
  | String a s' => N_of_ascii a :: lit s'
  end.

(** [str.isspace] for one code point: the ASCII table of CPython
    ([\t\n\v\f\r], [\x1c]-[\x1f], space) and the Unicode white space
    code points. *)
Definition isspace (c : N) : bool :=
  (((9 <=? c) && (c <=? 13)) || ((28 <=? c) && (c <=? 32))
   || (c =? 133) || (c =? 160) || (c =? 5760)
   || ((8192 <=? c) && (c <=? 8202))
   || (c =? 8232) || (c =? 8233) || (c =? 8239) || (c =? 8287)
   || (c =? 12288))%N.

Fixpoint take_while (p : N -> bool) (s : str) : str :=
  match s with
  | [] => []
  | c :: s' => if p c then c :: take_while p s' else []
  end.

Fixpoint drop_while (p : N -> bool) (s : str) : str :=
  match s with
  | [] => []
  | c :: s' => if p c then drop_while p s' else s
  end.

Definition lstrip (s : str) : str := drop_while isspace s.
Definition rstrip (s : str) : str := reverse (drop_while isspace (reverse s)).

(** [s.strip()] *)
Definition strip (s : str) : str := rstrip (lstrip s).

(** ** Exceptions *)

Inductive exn := AttributeError | TypeError | KeyError.

Inductive result (A : Type) : Type :=
| Ok (a : A)
| Raise (e : exn).
Arguments Ok {A} a.
Arguments Raise {A} e.

Definition bind {A B} (m : result A) (k : A -> result B) : result B :=
  match m with
  | Ok a => k a
  | Raise e => Raise e
  end.

Notation "'let!' x ':=' m 'in' k" := (bind m (fun x => k))
  (at level 10, x name, m at level 200, k at level 200).

(** A [for] loop whose body may raise, threading the loop's state. *)
Fixpoint for_each {A S} (xs : list A) (st : S) (body : S -> A -> result S)
  : result S :=
  match xs with
  | [] => Ok st
  | x :: xs' => let! st' := body st x in for_each xs' st' body
  end.

(** Truthiness of a value that is [None] or a [str]. *)
Definition truthy (o : option str) : bool :=
  match o with
  | Some (_ :: _) => true
  | _ => false
  end.

(** [o.strip()]: [None] has no such attribute. *)
Definition py_strip (o : option str) : result str :=
  match o with
  | Some s => Ok (strip s)
  | None => Raise AttributeError
  end.

(** ** The regular expressions of the parser *)

Module Re.

(** A literal at the current position; the text after it. *)
Fixpoint literal (p s : str) : option str :=
  match p, s with
  | [], _ => Some s
  | a :: p', b :: s' => if (a =? b)%N then literal p' s' else None
  | _ :: _, [] => None
  end.

(** The first occurrence of a literal: the text before it and the text
    after it. *)
Fixpoint find (p s : str) {struct s} : option (str * str) :=
  match literal p s with
  | Some r => Some ([], r)
  | None =>
      match s with
      | [] => None
      | c :: s' =>
          match find p s' with
          | Some (b, r) => Some (c :: b, r)
          | None => None
          end
      end
  end.

(** [<dependency>(.*?)</dependency>] with [re.DOTALL], tried at the
    current position: group 1 and the text after the match. The lazy
    [.*?] stops at the first closing tag. *)
Definition dependency_here (s : str) : option (str * str) :=
  match literal (lit "<dependency>") s with
  | Some r => find (lit "</dependency>") r
  | None => None
  end.

(** The scan of [re.findall]: a match is tried at each position from
    left to right and the scan resumes where a match ended. Every step
    consumes at least one code point. *)
Fixpoint findall_fuel (fuel : nat) (s : str) : list str :=
  match fuel with
  | O => []
  | S fuel' =>
      match dependency_here s with
      | Some (inner, rest) => inner :: findall_fuel fuel' rest
      | None =>
          match s with
          | [] => []
          | _ :: s' => findall_fuel fuel' s'
          end
      end
  end.

Definition findall_dependency (s : str) : list str :=
  findall_fuel (S (length s)) s.

(** [re.findall(r"<dependency>(.*?)</dependency>", o, re.DOTALL)] *)
Definition findall (o : option str) : result (list str) :=
  match o with
  | Some s => Ok (findall_dependency s)
  | None => Raise TypeError
  end.

(** A match object; only group 1 is read. *)
Record Match := { group1 : str }.

Definition not_lt (c : N) : bool := negb (c =? 60)%N.

(** [<tag>([^<]+)</tag>] tried at the current position. The greedy
    class takes the whole run up to the next [<]; no shorter run can be
    followed by the closing tag, which starts with [<]. *)
Definition tag_here (tag : string) (s : str) : option Match :=
  match literal (lit "<" ++ lit tag ++ lit ">") s with
  | Some r =>
      match take_while not_lt r with
      | [] => None
      | body =>
          match literal (lit "</" ++ lit tag ++ lit ">")
                        (drop_while not_lt r) with
          | Some _ => Some {| group1 := body |}
          | None => None
          end
      end
  | None => None
  end.

(** [re.search(r"<tag>([^<]+)</tag>", s)]: the leftmost match. *)
Fixpoint search (tag : string) (s : str) {struct s} : option Match :=
  match tag_here tag s with
  | Some m => Some m
  | None =>
      match s with
      | [] => None
      | _ :: s' => search tag s'
      end
  end.

(** Truthiness of what [re.search] returns. *)
Definition is_match (m : option Match) : bool :=
  match m with
  | Some _ => true
  | None => false
  end.

(** [m.group(1)]: [None] has no such attribute. *)
Definition group (m : option Match) : result str :=
  match m with
  | Some m => Ok (group1 m)
  | None => Raise AttributeError
  end.

End Re.

(** ** Dictionaries *)

(** A value stored in a snapshot: a string, or [None]. *)
Inductive pyval :=
| PyNone
| PyStr (s : str).

Global Instance pyval_eq_dec : EqDecision pyval.
Proof. solve_decision. Defined.

(** [str(v)] *)
Definition py_str (v : pyval) : str :=
  match v with
  | PyNone => lit "None"
  | PyStr s => s
  end.

Abbreviation dict := (list (str * pyval)).

(** [d[k] = v]: an existing key keeps its place. *)
Fixpoint dict_setitem (d : dict) (k : str) (v : pyval) : dict :=
  match d with
  | [] => [(k, v)]
  | (k', v') :: d' =>
      if decide (k' = k) then (k, v) :: d'
      else (k', v') :: dict_setitem d' k v
  end.

Fixpoint dict_get (d : dict) (k : str) : option pyval :=
  match d with
  | [] => None
  | (k', v') :: d' => if decide (k' = k) then Some v' else dict_get d' k
  end.

(** [k in d] *)
Definition dict_contains (d : dict) (k : str) : bool :=
  match dict_get d k with
  | Some _ => true
  | None => false
  end.

(** [d[k]] *)
Definition dict_getitem (d : dict) (k : str) : result pyval :=
  match dict_get d k with
  | Some v => Ok v
  | None => Raise KeyError
  end.

(** [d.get(k, default)] *)
Definition dict_get_default (d : dict) (k : str) (default : pyval) : pyval :=
  match dict_get d k with
  | Some v => v
  | None => default
  end.

(** The keys in iteration order. *)
Definition dict_keys (d : dict) : list str := d.*1.

(** [d or {}] *)
Definition dict_or_empty (d : dict) : dict :=
  match d with
  | [] => []
  | _ :: _ => d
  end.

(** ** The parser *)

(** The body of the loop over the blocks. *)
Definition parse_block (deps : dict) (block : str) : result dict :=
  let g := Re.search "groupId" block in
  let a := Re.search "artifactId" block in
  let v := Re.search "version" block in
  if Re.is_match g && Re.is_match a && Re.is_match v then
    let! gs := Re.group g in
    let! as_ := Re.group a in
    let key := strip gs ++ lit ":" ++ strip as_ in
    let! vs := Re.group v in
    Ok (dict_setitem deps key (PyStr (strip vs)))
  else Ok deps.

Definition _parse_dependency_blocks (pom_xml_text : option str)
  : result dict :=
  let deps : dict := [] in
  let! blank :=
    (if negb (truthy pom_xml_text) then Ok true
     else let! s := py_strip pom_xml_text in Ok (negb (truthy (Some s)))) in
  if (blank : bool) then Ok deps
  else
    let! blocks := Re.findall pom_xml_text in
    for_each blocks deps parse_block.

(** ** The mining loop *)

(** The objects of the commit walker belong to the PyDriller library, not
    to this repository. The records below hold the attributes the loop reads,
    under the names it reads them by. [filename] is the string the loop
    compares with ["pom.xml"]: PyDriller puts the name of the file there,
    without its directories. *)
Record ModifiedFile := {
  filename : str;
  source_code_before : option str;
  source_code : option str
}.

(** The last component of a path, which is what PyDriller's
    [ModifiedFile.filename] returns for the path of a modified file ([47] is
    the slash; the paths Git reports name files and do not end in one). *)
Definition basename (path : str) : str :=
  reverse (take_while (fun c => negb (c =? 47)%N) (reverse path)).

(** The object the walker yields for a modified file at [path]. *)
Definition walker_file (path : str) (before after : option str)
  : ModifiedFile :=
  {| filename := basename path;
     source_code_before := before;
     source_code := after |}.

(** [author_date] is only copied into the rows. *)
Abbreviation datetime := Z.

Record Commit := {
  hash : str;
  author_date : datetime;
  author_name : str;
  modified_files : list ModifiedFile
}.

(** A row: commit hash, date, author, dependency key, type of change. *)
Abbreviation Row := (str * datetime * str * str * str)%type.

Definition row_hash (r : Row) : str := r.1.1.1.1.
Definition row_key (r : Row) : str := r.1.2.
Definition row_change (r : Row) : str := r.2.

(** The accumulators [rows] and [seen] of [mine_repository]. *)
Record MiningState := {
  rows : list Row;
  seen : gset str
}.

(** [rows.append((commit.hash, commit.author_date, commit.author.name, k,
    change)); seen.add(commit.hash)] *)
Definition record_change (c : Commit) (k change : str) (st : MiningState)
  : MiningState :=
  {| rows := rows st ++ [(hash c, author_date c, author_name c, k, change)];
     seen := {[hash c]} ∪ seen st |}.

(** The body of [for k in after]. *)
Definition after_step (c : Commit) (before after : dict)
    (st : MiningState) (k : str) : result MiningState :=
  if negb (dict_contains before k) then
    Ok (record_change c k (lit "added") st)
  else
    let! b := dict_getitem before k in
    let! a := dict_getitem after k in
    if negb (bool_decide (b = a)) then
      Ok (record_change c k
            (lit "changed from "
               ++ py_str (dict_get_default before k (PyStr []))
               ++ lit " to "
               ++ py_str (dict_get_default after k (PyStr [])))
            st)
    else Ok st.

(** The body of [for k in before]. *)
Definition before_step (c : Commit) (after : dict)
    (st : MiningState) (k : str) : result MiningState :=
  if negb (dict_contains after k) then
    Ok (record_change c k (lit "removed") st)
  else Ok st.

(** The two loops over the snapshots of one modified file. *)
Definition classify (c : Commit) (before after : dict) (st : MiningState)
  : result MiningState :=
  let! st1 := for_each (dict_keys after) st (after_step c before after) in
  for_each (dict_keys before) st1 (before_step c after).

(** The body of [for f in commit.modified_files]. *)
Definition file_step (c : Commit) (st : MiningState) (f : ModifiedFile)
  : result MiningState :=
  if bool_decide (filename f <> lit "pom.xml") then Ok st
  else
    let! b := _parse_dependency_blocks (source_code_before f) in
    let before := dict_or_empty b in
    let! a := _parse_dependency_blocks (source_code f) in
    let after := dict_or_empty a in
    classify c before after st.

(** The body of [for commit in ...traverse_commits()]. *)
Definition commit_step (st : MiningState) (c : Commit) : result MiningState :=
  for_each (modified_files c) st (file_step c).

(** [mine_repository], from the commits the walker yields to the final
    [rows] and [seen]. *)
Definition mine_repository (commits : list Commit) : result MiningState :=
  let st := {| rows := []; seen := ∅ |} in
  for_each commits st commit_step.

(** ** Reading the model: what a block yields, what a pair of snapshots emits *)

(** The key and the version the loop body stores for a block, when the
    three searches match. *)
Definition block_entry (block : str) : option (str * str) :=
  match Re.search "groupId" block, Re.search "artifactId" block,
        Re.search "version" block with
  | Some g, Some a, Some v =>
      Some (strip (Re.group1 g) ++ lit ":" ++ strip (Re.group1 a),
            strip (Re.group1 v))
  | _, _, _ => None
  end.

Definition add_entry (deps : dict) (block : str) : dict :=
  match block_entry block with
  | Some (k, v) => dict_setitem deps k (PyStr v)
  | None => deps
  end.

(** The snapshot of a text: the blocks' entries, stored in document order. *)
Definition snapshot (o : option str) : dict :=
  match o with
  | Some s => foldl add_entry [] (Re.findall_dependency s)
  | None => []
  end.

Definition changed_text (b a : pyval) : str :=
  lit "changed from " ++ py_str b ++ lit " to " ++ py_str a.

(** The rule of the specification for one key: [added] when the key is
    only in [after], [changed from X to Y] when it is in both with
    different versions, [removed] when it is only in [before], nothing
    otherwise. *)
Definition spec_outcome (before after : dict) (k : str) : option str :=
  match dict_get before k, dict_get after k with
  | None, Some _ => Some (lit "added")
  | Some b, Some a => if decide (b = a) then None else Some (changed_text b a)
  | Some _, None => Some (lit "removed")
  | None, None => None
  end.

Definition mk_row (c : Commit) (e : str * str) : Row :=
  (hash c, author_date c, author_name c, e.1, e.2).

(** The changes the first loop emits along a list of keys. *)
Definition after_events (before after : dict) (ks : list str)
  : list (str * str) :=
  omap (fun k => pair k <$> (if dict_contains after k
                             then spec_outcome before after k
                             else None)) ks.

(** The changes the second loop emits along a list of keys. *)
Definition removed_events (after : dict) (ks : list str)
  : list (str * str) :=
  omap (fun k => pair k <$> (if dict_contains after k then None
                             else Some (lit "removed"))) ks.

Definition pair_events (before after : dict) : list (str * str) :=
  after_events before after (dict_keys after)
  ++ removed_events after (dict_keys before).

Definition record_all (c : Commit) (es : list (str * str)) (st : MiningState)
  : MiningState :=
  foldl (fun s e => record_change c e.1 e.2 s) st es.

Definition file_events (f : ModifiedFile) : list (str * str) :=
  if decide (filename f = lit "pom.xml")
  then pair_events (snapshot (source_code_before f)) (snapshot (source_code f))
  else [].

Definition commit_events (c : Commit) : list (str * str) :=
  flat_map file_events (modified_files c).

Definition record_commits (st : MiningState) (cs : list Commit) : MiningState :=
  foldl (fun s c => record_all c (commit_events c) s) st cs.

(** The invariant that ties [seen] to [rows]. *)
Definition seen_matches_rows (st : MiningState) : Prop :=
  forall h, h ∈ seen st <-> exists r, r ∈ rows st /\ row_hash r = h.

Definition rows_of (m : result MiningState) : list Row :=
  match m with
  | Ok st => rows st
  | Raise _ => []
  end.

(** ** Example inputs *)

(** A block with a group and an artifact but no version. *)
Definition pom_without_version : str :=
  lit "<dependency><groupId>org.a</groupId><artifactId>lib</artifactId></dependency>".

(** A block whose version tag holds only white space. *)
Definition pom_blank_version : str :=
  lit "<dependency><groupId>org.a</groupId><artifactId>lib</artifactId><version> </version></dependency>".

Definition block_lib_1 : str :=
  lit "<groupId>org.a</groupId><artifactId>lib</artifactId><version>1.0</version>".
Definition block_lib_2 : str :=
  lit "<groupId>org.a</groupId><artifactId>lib</artifactId><version>2.0</version>".
Definition block_core_3 : str :=
  lit "<groupId>org.a</groupId><artifactId>core</artifactId><version>3.0</version>".

Definition wrap_block (b : str) : str :=
  lit "<dependency>" ++ b ++ lit "</dependency>".

(** The same key declared twice, then another artifact of the same group. *)
Definition pom_repeated_key : str :=
  lit "<project>" ++ wrap_block block_lib_1 ++ wrap_block block_lib_2
    ++ wrap_block block_core_3 ++ lit "</project>".

(** Two snapshots with one changed, one removed and one added key. *)
Definition snapshot_old : dict :=
  [(lit "org.a:lib", PyStr (lit "1.0")); (lit "org.b:x", PyStr (lit "1"))].
Definition snapshot_new : dict :=
  [(lit "org.a:lib", PyStr (lit "2.0")); (lit "org.c:y", PyNone)].

Definition commit_c1 : Commit :=
  {| hash := lit "c1"; author_date := 0; author_name := lit "ann";
     modified_files := [] |}.

Definition empty_state : MiningState := {| rows := []; seen := ∅ |}.

(** A short history: the first commit adds [pom.xml], the second only
    touches another XML file, the third rewrites [pom.xml]. *)
Definition history : list Commit :=
  [ {| hash := lit "c1"; author_date := 10; author_name := lit "ann";
       modified_files :=
         [ {| filename := lit "pom.xml"; source_code_before := None;
              source_code := Some (wrap_block block_lib_1) |} ] |};
    {| hash := lit "c2"; author_date := 20; author_name := lit "bob";
       modified_files :=
         [ walker_file (lit "src/site/site.xml") None
             (Some pom_repeated_key) ] |};
    {| hash := lit "c3"; author_date := 30; author_name := lit "ann";
       modified_files :=
         [ {| filename := lit "pom.xml";
              source_code_before := Some (wrap_block block_lib_1);
              source_code := Some pom_repeated_key |} ] |} ].

(** A manifest cut off inside its only block. *)
Definition pom_truncated : str :=
  lit "<project><dependency><groupId>org.a</groupId><artifactId>lib</artifactId>".

(** The block of [block_lib_1] laid out over several lines. *)
Definition pom_lib_1_spaced : str :=
  lit "<dependencies>
  <dependency>
    <groupId> org.a </groupId> <artifactId>lib</artifactId>
    <version> 1.0
    </version>
  </dependency>
</dependencies>".

Definition file_reformatted : ModifiedFile :=
  {| filename := lit "pom.xml";
     source_code_before := Some (wrap_block block_lib_1);
     source_code := Some pom_lib_1_spaced |}.

(** The same two declarations in the other order. *)
Definition file_reordered : ModifiedFile :=
  {| filename := lit "pom.xml";
     source_code_before :=
       Some (wrap_block block_lib_1 ++ wrap_block block_core_3);
     source_code :=
       Some (wrap_block block_core_3 ++ wrap_block block_lib_1) |}.

Definition file_added : ModifiedFile :=
  {| filename := lit "pom.xml"; source_code_before := None;
     source_code := Some pom_repeated_key |}.

Definition file_deleted : ModifiedFile :=
  {| filename := lit "pom.xml"; source_code_before := Some pom_repeated_key;
     source_code := None |}.

(** ** The strict parser *)

(** [_parse_pom_dependencies] reads the manifest through lxml. The library
    is not part of the repository: the calls the function makes are taken as
    parameters, and the function is modelled for any library behind them. *)
Section Strict.

Variable Element : Type.
Variable parse_error : Type.

(** [etree.fromstring(text.encode())]: a tree, or what the call raises. *)
Variable fromstring : str -> parse_error + Element.

(** [tree.nsmap.get(None)] *)
Variable default_namespace : Element -> option str.

(** [e.findall(path, namespaces=ns)] and [e.find(path, namespaces=ns)] *)
Variable findall : Element -> str -> option (list (str * str)) -> list Element.
Variable find : Element -> str -> option (list (str * str)) -> option Element.

(** [e.text] *)
Variable text : Element -> option str.

Inductive StrictResult :=
| Parsed (d : dict)
| ParseFailed (e : parse_error)
| Raised (e : exn).

(** The body of [for dep in tree.findall(dep_path, namespaces=ns)]. *)
Definition strict_step (ns : option (list (str * str)))
    (group_path artifact_path version_path : str)
    (dependencies : dict) (dep : Element) : result dict :=
  let group := find dep group_path ns in
  let artifact := find dep artifact_path ns in
  let version := find dep version_path ns in
  match group, artifact with
  | Some g, Some a =>
      let! group_id := py_strip (text g) in
      let! artifact_id := py_strip (text a) in
      let! version_text :=
        match version with
        | Some v => let! s := py_strip (text v) in Ok (PyStr s)
        | None => Ok PyNone
        end in
      let key := group_id ++ lit ":" ++ artifact_id in
      Ok (dict_setitem dependencies key version_text)
  | _, _ => Ok dependencies
  end.

Definition _parse_pom_dependencies (pom_xml_text : option str)
  : StrictResult :=
  if negb (truthy pom_xml_text) then Parsed []
  else
    match pom_xml_text with
    | None => Raised AttributeError
    | Some t =>
        match fromstring t with
        | inl e => ParseFailed e
        | inr tree =>
            let namespace := default_namespace tree in
            let dependencies : dict := [] in
            let '(ns, dep_path, group_path, artifact_path, version_path) :=
              if truthy namespace
              then (Some [(lit "m", default [] namespace)],
                    lit ".//m:dependency", lit "m:groupId",
                    lit "m:artifactId", lit "m:version")
              else (None, lit ".//dependency", lit "groupId",
                    lit "artifactId", lit "version") in
            match for_each (findall tree dep_path ns) dependencies
                    (strict_step ns group_path artifact_path version_path)
            with
            | Ok d => Parsed d
            | Raise e => Raised e
            end
        end
    end.

(** The namespace map and the paths the function settles on for a tree. *)
Definition strict_ns (tree : Element) : option (list (str * str)) :=
  if truthy (default_namespace tree)
  then Some [(lit "m", default [] (default_namespace tree))]
  else None.

Definition strict_path (tree : Element) (name : string) : str :=
  if truthy (default_namespace tree) then lit "m:" ++ lit name else lit name.

(** The dependency elements the loop visits, and a child of one of them. *)
Definition strict_elements (tree : Element) : list Element :=
  findall tree (lit ".//" ++ strict_path tree "dependency") (strict_ns tree).

Definition child (tree dep : Element) (name : string) : option Element :=
  find dep (strict_path tree name) (strict_ns tree).

(** Every element whose text the loop reads for [dep] has a text. *)
Definition has_texts (tree dep : Element) : Prop :=
  match child tree dep "groupId", child tree dep "artifactId" with
  | Some g, Some a =>
      is_Some (text g) /\ is_Some (text a)
      /\ match child tree dep "version" with
         | Some v => is_Some (text v)
         | None => True
         end
  | _, _ => True
  end.

(** The key the loop stores for [dep], when it stores one. *)
Definition strict_key (tree dep : Element) : option str :=
  match child tree dep "groupId", child tree dep "artifactId" with
  | Some g, Some a =>
      match text g, text a with
      | Some gs, Some as_ => Some (strip gs ++ lit ":" ++ strip as_)
      | _, _ => None
      end
  | _, _ => None
  end.

(** The version the loop stores for [dep]. *)
Definition strict_version (tree dep : Element) : pyval :=
  match child tree dep "version" with
  | Some v => PyStr (strip (default [] (text v)))
  | None => PyNone
  end.

(** What the loop body leaves in the dictionary for [dep], when it does not
    raise. *)
Definition strict_store (tree : Element) (deps : dict) (dep : Element) : dict :=
  match strict_key tree dep with
  | Some k => dict_setitem deps k (strict_version tree dep)
  | None => deps
  end.

End Strict.

Arguments Parsed {parse_error} d.
Arguments ParseFailed {parse_error} e.
Arguments Raised {parse_error} e.

(** ** The run: walker, output file and console *)

(** What a run does to the outside, in order. *)
Inductive Action :=
| Print (line : str)
| Traverse (url : str) (file_types : list str)
| OpenForWriting (name : str)
| WriteRow (fields : list str).

(** [str(n)] for a count. *)
Definition str_of_nat (n : nat) : str :=
  lit (NilZero.string_of_uint (Nat.to_uint n)).

Definition csv_header : list str :=
  [lit "Commit Hash"; lit "Commit Date"; lit "Commit Author";
   lit "Dependency Name"; lit "Type of Change"].

Section Run.

Variable walker_error : Type.

(** [Repository(url, only_modifications_with_file_types=types)
    .traverse_commits()]: the commits the generator yields and, when it
    fails, what it raises after them. *)
Variable traverse_commits :
  str -> list str -> list Commit * option walker_error.

(** [str(d)] for a commit date. *)
Variable str_of_date : datetime -> str.

(** How a run ends. *)
Inductive Ending :=
| Returned
| Exited (code : Z)
| WalkerRaised (e : walker_error)
| Uncaught (e : exn).

(** [[r[0], str(r[1]), r[2], r[3], r[4]]] *)
Definition csv_record (r : Row) : list str :=
  [r.1.1.1.1; str_of_date r.1.1.1.2; r.1.1.2; r.1.2; r.2].

(** [mine_repository(owner, repo)] with its console and file output. The
    file system is taken to accept the file and the records. *)
Definition mine_repository_run (owner repo : str) : list Action * Ending :=
  let repo_url := lit "https://github.com/" ++ owner ++ lit "/" ++ repo in
  let out :=
    [Print (lit "Analyzing repository: " ++ owner ++ lit "/" ++ repo);
     Print (lit "URL: " ++ repo_url);
     Print (lit "This may take a few minutes..." ++ [10%N])] in
  let repo_url := repo_url ++ lit ".git" in
  let out := out ++ [Traverse repo_url [lit ".xml"]] in
  let '(commits, failure) := traverse_commits repo_url [lit ".xml"] in
  match mine_repository commits with
  | Raise e => (out, Uncaught e)
  | Ok st =>
      match failure with
      | Some e => (out, WalkerRaised e)
      | None =>
          let output_filename :=
            owner ++ lit "_" ++ repo ++ lit "_dependency_commits.csv" in
          (out
             ++ [OpenForWriting output_filename; WriteRow csv_header]
             ++ (WriteRow ∘ csv_record <$> rows st)
             ++ [Print (lit "Repository: " ++ owner ++ lit "/" ++ repo);
                 Print (lit "Results:");
                 Print (lit "Number of commits with dependency changes: "
                          ++ str_of_nat (size (seen st)));
                 Print (lit "Commit list saved to: " ++ output_filename)],
           Returned)
      end
  end.

(** [main()], from [sys.argv]. *)
Definition main (argv : list str) : list Action * Ending :=
  match argv with
  | [_; owner; repo] => mine_repository_run owner repo
  | _ =>
      ([Print (lit "Usage: python dependency-miner.py <owner> <repo>");
        Print (lit "Example: python dependency-miner.py pac4j dropwizard-pac4j")],
       Exited 1)
  end.

End Run.

Arguments Returned {walker_error}.
Arguments Exited {walker_error} code.
Arguments WalkerRaised {walker_error} e.
Arguments Uncaught {walker_error} e.

(** The records a run wrote. *)
Definition written (trace : list Action) : list (list str) :=
  omap (fun a => match a with WriteRow fields => Some fields | _ => None end)
       trace.

(** ** Manifests in the usual layout *)

Definition open_tag (tag : string) : str := lit "<" ++ lit tag ++ lit ">".
Definition close_tag (tag : string) : str := lit "</" ++ lit tag ++ lit ">".

(** [<tag>body</tag>] *)
Definition element (tag : string) (body : str) : str :=
  open_tag tag ++ body ++ close_tag tag.

(** A dependency declaration as Maven lays it out: the group, the
    artifact and the version, in this order, with text before, between and
    after them. *)
Record Declaration := {
  lead : str;
  group_text : str;
  gap1 : str;
  artifact_text : str;
  gap2 : str;
  version_text : str;
  trail : str
}.

(** The text between [<dependency>] and [</dependency>]. *)
Definition block_of (d : Declaration) : str :=
  lead d ++ element "groupId" (group_text d)
    ++ gap1 d ++ element "artifactId" (artifact_text d)
    ++ gap2 d ++ element "version" (version_text d)
    ++ trail d.

(** A value is not empty and holds no [<]. *)
Definition is_value (s : str) : Prop := s <> [] /\ 60%N ∉ s.

(** The text before and between the three elements holds no [<]; what
    follows the version is any text without a closing [</dependency>]:
    a scope, exclusions, comments. *)
Definition well_laid_out (d : Declaration) : Prop :=
  (60%N ∉ lead d) /\ (60%N ∉ gap1 d) /\ (60%N ∉ gap2 d)
  /\ is_value (group_text d) /\ is_value (artifact_text d)
  /\ is_value (version_text d)
  /\ Re.find (lit "</dependency>") (trail d) = None.

(** The entry a declaration stands for. *)
Definition entry_of (d : Declaration) : str * pyval :=
  (strip (group_text d) ++ lit ":" ++ strip (artifact_text d),
   PyStr (strip (version_text d))).

(** A manifest: each block with the text that comes before it, then the
    rest of the file. *)
Definition manifest (items : list (str * str)) (rest : str) : str :=
  flat_map (fun it => it.1 ++ wrap_block it.2) items ++ rest.

(** [p] and [s] differ at some position both have. *)
Fixpoint clash (p s : str) : bool :=
  match p, s with
  | a :: p', b :: s' => if (a =? b)%N then clash p' s' else true
  | _, _ => false
  end.

(** No match of the literal [p] can start inside [x], whatever follows. *)
Fixpoint no_start (p x : str) : bool :=
  match x with
  | [] => true
  | _ :: x' => clash p x && no_start p x'
  end.

(** A block with a scope and an exclusion after its version. *)
Definition declaration_junit : Declaration :=
  {| lead := lit "
      ";
     group_text := lit "junit";
     gap1 := lit "
      ";
     artifact_text := lit "junit";
     gap2 := lit "
      ";
     version_text := lit " 4.13 ";
     trail := lit "
      <scope>test</scope>
      <exclusions><exclusion><groupId>org.x</groupId><artifactId>y</artifactId></exclusion></exclusions>
    " |}.

Definition declaration_lib : Declaration :=
  {| lead := []; group_text := lit "org.a"; gap1 := [];
     artifact_text := lit "lib"; gap2 := []; version_text := lit "1.0";
     trail := [] |}.

(** A stand-in for the XML library, to run the strict parser on: a tree
    is its list of dependency elements, a dependency element holds its three
    children (absent, or present with or without text). *)
Record ToyChildren := {
  toy_group : option (option str);
  toy_artifact : option (option str);
  toy_version : option (option str)
}.

Inductive ToyElement :=
| ToyTree (deps : list ToyChildren)
| ToyDep (children : ToyChildren)
| ToyLeaf (t : option str).

Definition toy_fromstring (tree : ToyElement) (_ : str) : unit + ToyElement :=
  inr tree.

Definition toy_namespace (_ : ToyElement) : option str := None.

Definition toy_findall (e : ToyElement) (_ : str)
    (_ : option (list (str * str))) : list ToyElement :=
  match e with
  | ToyTree deps => ToyDep <$> deps
  | _ => []
  end.

Definition toy_find (e : ToyElement) (path : str)
    (_ : option (list (str * str))) : option ToyElement :=
  match e with
  | ToyDep d =>
      if decide (path = lit "groupId") then ToyLeaf <$> toy_group d
      else if decide (path = lit "artifactId") then ToyLeaf <$> toy_artifact d
      else if decide (path = lit "version") then ToyLeaf <$> toy_version d
      else None
  | _ => None
  end.

Definition toy_text (e : ToyElement) : option str :=
  match e with
  | ToyLeaf t => t
  | _ => None
  end.

(** [org.a:lib] at 1.0, then [org.a:core] without a version element. *)
Definition toy_dep_lib : ToyChildren :=
  {| toy_group := Some (Some (lit "org.a"));
     toy_artifact := Some (Some (lit " lib "));
     toy_version := Some (Some (lit "1.0")) |}.
Definition toy_dep_core : ToyChildren :=
  {| toy_group := Some (Some (lit "org.a"));
     toy_artifact := Some (Some (lit "core"));
     toy_version := None |}.

(** A dependency whose group element is empty, [<groupId/>]. *)
Definition toy_dep_no_group_text : ToyChildren :=
  {| toy_group := Some None;
     toy_artifact := Some (Some (lit "lib"));
     toy_version := Some (Some (lit "1.0")) |}.

Definition toy_tree_good : ToyElement := ToyTree [toy_dep_lib; toy_dep_core].
Definition toy_tree_bad : ToyElement :=
  ToyTree [toy_dep_lib; toy_dep_no_group_text; toy_dep_core].

(** A stand-in for the walker, which yields [history] and does not fail,
    and for the rendering of dates. *)
Definition toy_walker (_ : str) (_ : list str) : list Commit * option unit :=
  (history, None).
Definition toy_date (_ : datetime) : str := lit "2024-01-01".

(** * Properties *)

(** ** Strings *)

Lemma drop_while_nil p s : drop_while p s = [] <-> Forall (fun c => p c = true) s.
Proof.
  induction s as [|c s IH]; simpl.
  - split; auto.
  - destruct (p c) eqn:E.
    + rewrite IH. split; [intros H; constructor; auto | intros H; by inversion H].
    + split; [done | intros H; inversion H; congruence].
Qed.

Lemma drop_while_head p s c s' : drop_while p s = c :: s' -> p c = false.
Proof.
  induction s as [|x s IH]; simpl; [done|].
  destruct (p x) eqn:E; [done|]. intros [= -> _]. done.
Qed.

Lemma drop_while_elem p s c : c ∈ drop_while p s -> c ∈ s.
Proof.
  induction s as [|x s IH]; simpl; [done|].
  destruct (p x); [|done]. intros H. right. auto.
Qed.

Lemma drop_while_snoc p s c :
  p c = false -> drop_while p (s ++ [c]) = drop_while p s ++ [c].
Proof.
  intros Hc. induction s as [|x s IH]; simpl; [by rewrite Hc|].
  by destruct (p x).
Qed.

Lemma take_while_Forall p s : Forall (fun c => p c = true) (take_while p s).
Proof.
  induction s as [|x s IH]; simpl; [constructor|].
  destruct (p x) eqn:E; constructor; auto.
Qed.

Lemma strip_elem s c : c ∈ strip s -> c ∈ s.
Proof.
  unfold strip, rstrip, lstrip. rewrite elem_of_reverse. intros H.
  apply drop_while_elem in H. rewrite elem_of_reverse in H.
  by apply drop_while_elem in H.
Qed.

Lemma strip_head s c : head (strip s) = Some c -> isspace c = false.
Proof.
  unfold strip, rstrip, lstrip.
  destruct (drop_while isspace s) as [|x t] eqn:E.
  { by rewrite reverse_nil. }
  pose proof (drop_while_head _ _ _ _ E) as Hx.
  rewrite reverse_cons, drop_while_snoc by done.
  rewrite reverse_app, reverse_singleton. simpl. by intros [= <-].
Qed.

Lemma strip_last s c : last (strip s) = Some c -> isspace c = false.
Proof.
  unfold strip, rstrip. rewrite last_reverse.
  destruct (drop_while isspace (reverse (lstrip s))) as [|x t] eqn:E; [done|].
  simpl. intros [= <-]. by eapply drop_while_head.
Qed.

Lemma strip_nil_Forall s : strip s = [] -> Forall (fun c => isspace c = true) s.
Proof.
  unfold strip, rstrip, lstrip. intros H.
  apply (f_equal reverse) in H. rewrite reverse_involutive, reverse_nil in H.
  apply drop_while_nil in H.
  destruct (drop_while isspace s) as [|x t] eqn:E.
  - by apply drop_while_nil.
  - pose proof (drop_while_head _ _ _ _ E) as Hx.
    rewrite Forall_reverse in H. inversion H; congruence.
Qed.

(** ** Regular expressions *)

Lemma literal_length p s r :
  Re.literal p s = Some r -> length s = length p + length r.
Proof.
  revert s. induction p as [|a p IH]; intros [|b s]; simpl; try done.
  - by intros [= <-].
  - by intros [= <-].
  - destruct (a =? b)%N; [|done]. intros H. apply IH in H. lia.
Qed.

Lemma literal_head a p s r :
  Re.literal (a :: p) s = Some r -> exists s', s = a :: s'.
Proof.
  destruct s as [|b s]; simpl; [done|].
  destruct (N.eqb_spec a b) as [->|]; [eauto | done].
Qed.

Lemma find_length p s b r :
  Re.find p s = Some (b, r) -> length s = length b + length p + length r.
Proof.
  revert b. induction s as [|c s IH]; intros b; simpl.
  - destruct (Re.literal p []) eqn:E; [|done].
    intros [= <- <-]. apply literal_length in E. simpl in *. lia.
  - destruct (Re.literal p (c :: s)) eqn:E.
    + intros [= <- <-]. apply literal_length in E. simpl in *. lia.
    + destruct (Re.find p s) as [[b' r']|] eqn:F; [|done].
      intros [= <- <-]. specialize (IH _ eq_refl). simpl. lia.
Qed.

Lemma dependency_here_shorter s inner rest :
  Re.dependency_here s = Some (inner, rest) -> length rest < length s.
Proof.
  unfold Re.dependency_here.
  destruct (Re.literal _ s) as [r|] eqn:E; [|done].
  intros F. apply literal_length in E. apply find_length in F.
  simpl in *. lia.
Qed.

Lemma dependency_here_lt s x :
  Re.dependency_here s = Some x -> 60%N ∈ s.
Proof.
  unfold Re.dependency_here.
  destruct (Re.literal _ s) as [r|] eqn:E; [|done].
  intros _. apply literal_head in E as [s' ->]. left.
Qed.

(** Fuel beyond the length of the text does not change the scan. *)
Lemma findall_fuel_enough n m s :
  length s < n -> length s < m -> Re.findall_fuel n s = Re.findall_fuel m s.
Proof.
  revert m s. induction n as [|n IH]; intros m s Hn Hm; [lia|].
  destruct m as [|m]; [lia|]. simpl.
  destruct (Re.dependency_here s) as [[inner rest]|] eqn:E.
  - apply dependency_here_shorter in E. f_equal. apply IH; lia.
  - destruct s as [|c s]; [done|]. simpl in *. apply IH; lia.
Qed.

(** The scan, one step at a time. *)
Lemma findall_dependency_unfold s :
  Re.findall_dependency s =
  match Re.dependency_here s with
  | Some (inner, rest) => inner :: Re.findall_dependency rest
  | None =>
      match s with
      | [] => []
      | _ :: s' => Re.findall_dependency s'
      end
  end.
Proof.
  unfold Re.findall_dependency at 1. simpl.
  destruct (Re.dependency_here s) as [[inner rest]|] eqn:E.
  - apply dependency_here_shorter in E. f_equal.
    apply findall_fuel_enough; lia.
  - destruct s as [|c s]; [done|]. apply findall_fuel_enough; simpl; lia.
Qed.

Lemma findall_fuel_no_lt n s : 60%N ∉ s -> Re.findall_fuel n s = [].
Proof.
  revert s. induction n as [|n IH]; intros s Hs; simpl; [done|].
  destruct (Re.dependency_here s) as [x|] eqn:E.
  - by apply dependency_here_lt in E.
  - destruct s as [|c s]; [done|]. apply IH. set_solver.
Qed.

Lemma findall_blank s : strip s = [] -> Re.findall_dependency s = [].
Proof.
  intros H. apply findall_fuel_no_lt. intros Hin.
  apply strip_nil_Forall in H. rewrite Forall_forall in H.
  by apply H in Hin.
Qed.

Lemma tag_here_group tag s m :
  Re.tag_here tag s = Some m -> Re.group1 m <> [] /\ 60%N ∉ Re.group1 m.
Proof.
  unfold Re.tag_here.
  destruct (Re.literal _ s) as [r|]; [|done].
  pose proof (take_while_Forall Re.not_lt r) as HF.
  destruct (take_while Re.not_lt r) as [|x body] eqn:E; [done|].
  destruct (Re.literal _ (drop_while _ _)); [|done].
  intros [= <-]. simpl. split; [done|].
  intros Hin. rewrite Forall_forall in HF. apply HF in Hin. done.
Qed.

Lemma search_group tag s m :
  Re.search tag s = Some m -> Re.group1 m <> [] /\ 60%N ∉ Re.group1 m.
Proof.
  induction s as [|c s IH]; cbn [Re.search].
  - destruct (Re.tag_here tag []) eqn:E; [|done].
    intros [= <-]. by eapply tag_here_group.
  - destruct (Re.tag_here tag (c :: s)) eqn:E; [|done].
    intros [= <-]. by eapply tag_here_group.
Qed.

(** ** The parser never raises *)

Lemma parse_block_ok deps block :
  parse_block deps block = Ok (add_entry deps block).
Proof.
  unfold parse_block, add_entry, block_entry.
  destruct (Re.search "groupId" block) as [g|]; [|done].
  destruct (Re.search "artifactId" block) as [a|]; [|done].
  by destruct (Re.search "version" block) as [v|].
Qed.

Lemma for_each_parse_block blocks deps :
  for_each blocks deps parse_block = Ok (foldl add_entry deps blocks).
Proof.
  revert deps. induction blocks as [|b bs IH]; intros deps; simpl; [done|].
  rewrite parse_block_ok. simpl. apply IH.
Qed.

Lemma parse_ok o : _parse_dependency_blocks o = Ok (snapshot o).
Proof.
  unfold _parse_dependency_blocks, snapshot.
  destruct o as [[|c s]|]; simpl; [done| |done].
  destruct (strip (c :: s)) as [|x t] eqn:E; simpl.
  - by rewrite findall_blank.
  - apply for_each_parse_block.
Qed.

(** ** Dictionaries *)

Lemma dict_get_setitem d k v k' :
  dict_get (dict_setitem d k v) k' =
  if decide (k = k') then Some v else dict_get d k'.
Proof.
  induction d as [|[k0 v0] d IH]; simpl.
  - done.
  - destruct (decide (k0 = k)) as [->|Hne]; simpl.
    + by destruct (decide (k = k')).
    + rewrite IH. destruct (decide (k0 = k')) as [->|]; [|done].
      by rewrite decide_False.
Qed.

Lemma dict_get_is_Some d k : is_Some (dict_get d k) <-> k ∈ dict_keys d.
Proof.
  unfold dict_keys. induction d as [|[k0 v0] d IH]; simpl.
  - split; [by intros [? ?] | by intros ?%elem_of_nil].
  - rewrite elem_of_cons. destruct (decide (k0 = k)) as [->|Hne].
    + split; [auto | by eexists].
    + rewrite IH. split; [auto | by intros [?|?]].
Qed.

Lemma dict_get_None d k : dict_get d k = None <-> k ∉ dict_keys d.
Proof. rewrite <- dict_get_is_Some, eq_None_not_Some. done. Qed.

Lemma dict_contains_true d k : dict_contains d k = true <-> k ∈ dict_keys d.
Proof.
  rewrite <- dict_get_is_Some. unfold dict_contains.
  destruct (dict_get d k) as [v|].
  - split; [intros _; by eexists | done].
  - split; [done | by intros [? ?]].
Qed.

Lemma dict_contains_false d k : dict_contains d k = false <-> k ∉ dict_keys d.
Proof.
  rewrite <- dict_contains_true. by destruct (dict_contains d k).
Qed.

Lemma dict_keys_setitem d k v k' :
  k' ∈ dict_keys (dict_setitem d k v) <-> k' = k \/ k' ∈ dict_keys d.
Proof.
  rewrite <- !dict_get_is_Some, dict_get_setitem.
  destruct (decide (k = k')) as [->|Hne]; [split; eauto|].
  split; [auto | intros [->|H]; [done | exact H]].
Qed.

Lemma dict_setitem_NoDup d k v :
  NoDup (dict_keys d) -> NoDup (dict_keys (dict_setitem d k v)).
Proof.
  unfold dict_keys. induction d as [|[k0 v0] d IH]; simpl; intros H.
  - apply NoDup_singleton.
  - apply NoDup_cons in H as [Hnin Hnd].
    destruct (decide (k0 = k)) as [->|Hne]; simpl.
    + by apply NoDup_cons.
    + apply NoDup_cons. split; [|auto].
      intros Hin. apply (dict_keys_setitem d k v k0) in Hin.
      destruct Hin as [->|Hin]; done.
Qed.

Lemma dict_or_empty_id d : dict_or_empty d = d.
Proof. by destruct d. Qed.

(** ** The snapshot of a text *)

Lemma add_entries_NoDup blocks deps :
  NoDup (dict_keys deps) -> NoDup (dict_keys (foldl add_entry deps blocks)).
Proof.
  revert deps. induction blocks as [|b bs IH]; intros deps H; simpl; [done|].
  apply IH. unfold add_entry. destruct (block_entry b) as [[k v]|]; [|done].
  by apply dict_setitem_NoDup.
Qed.

Lemma snapshot_NoDup o : NoDup (dict_keys (snapshot o)).
Proof.
  destruct o as [s|]; simpl; [|apply NoDup_nil_2].
  apply add_entries_NoDup, NoDup_nil_2.
Qed.

(** Every entry is there from the start or was stored for a block. *)
Lemma add_entries_origin blocks deps k v :
  dict_get (foldl add_entry deps blocks) k = Some v ->
  dict_get deps k = Some v \/
  exists b s, b ∈ blocks /\ block_entry b = Some (k, s) /\ v = PyStr s.
Proof.
  revert deps. induction blocks as [|b bs IH]; intros deps; simpl; [auto|].
  intros H. apply IH in H as [H|(b' & s & Hin & Hb & ->)].
  - unfold add_entry in H. destruct (block_entry b) as [[k0 v0]|] eqn:E; [|auto].
    rewrite dict_get_setitem in H.
    destruct (decide (k0 = k)) as [->|]; [|auto].
    injection H as <-. right. exists b, v0. split; [left|done].
  - right. exists b', s. split; [by right|done].
Qed.

(** A key, once stored, stays. *)
Lemma add_entries_keeps blocks deps k :
  k ∈ dict_keys deps -> k ∈ dict_keys (foldl add_entry deps blocks).
Proof.
  revert deps. induction blocks as [|b bs IH]; intros deps H; simpl; [done|].
  apply IH. unfold add_entry. destruct (block_entry b) as [[k0 v0]|]; [|done].
  apply dict_keys_setitem. auto.
Qed.

Lemma add_entries_stores blocks deps b k s :
  b ∈ blocks -> block_entry b = Some (k, s) ->
  k ∈ dict_keys (foldl add_entry deps blocks).
Proof.
  revert deps. induction blocks as [|b0 bs IH]; intros deps Hin Hb.
  - by apply elem_of_nil in Hin.
  - simpl. apply elem_of_cons in Hin as [<-|Hin]; [|eauto].
    apply add_entries_keeps. unfold add_entry. rewrite Hb.
    apply dict_keys_setitem. auto.
Qed.

(** Blocks that do not yield [k] leave the version of [k] as it is. *)
Lemma add_entries_other blocks deps k :
  (forall b s, b ∈ blocks -> block_entry b <> Some (k, s)) ->
  dict_get (foldl add_entry deps blocks) k = dict_get deps k.
Proof.
  revert deps. induction blocks as [|b bs IH]; intros deps H; simpl; [done|].
  rewrite IH by (intros b' s Hin; apply H; by right).
  unfold add_entry. destruct (block_entry b) as [[k0 v0]|] eqn:E; [|done].
  rewrite dict_get_setitem. destruct (decide (k0 = k)) as [->|]; [|done].
  exfalso. eapply H; [left|exact E].
Qed.

(** The last block that yields a key decides its version. *)
Lemma add_entries_last bs1 b bs2 deps k s :
  block_entry b = Some (k, s) ->
  (forall b' s', b' ∈ bs2 -> block_entry b' <> Some (k, s')) ->
  dict_get (foldl add_entry deps (bs1 ++ b :: bs2)) k = Some (PyStr s).
Proof.
  intros Hb Hlater. rewrite foldl_app. simpl.
  rewrite add_entries_other by done.
  unfold add_entry at 1. rewrite Hb, dict_get_setitem. by rewrite decide_True.
Qed.

(** ** The classification loops never raise *)

Lemma record_all_app c es1 es2 st :
  record_all c (es1 ++ es2) st = record_all c es2 (record_all c es1 st).
Proof. apply foldl_app. Qed.

Lemma record_all_rows c es st :
  rows (record_all c es st) = rows st ++ map (mk_row c) es.
Proof.
  revert st. induction es as [|e es IH]; intros st; simpl.
  - by rewrite app_nil_r.
  - unfold record_all in *. simpl. rewrite IH. simpl.
    by rewrite <- app_assoc.
Qed.

Lemma record_all_seen c es st :
  seen (record_all c es st) =
  match es with
  | [] => seen st
  | _ :: _ => {[hash c]} ∪ seen st
  end.
Proof.
  revert st. induction es as [|e es IH]; intros st; [done|].
  unfold record_all in *. simpl. rewrite IH.
  destruct es; simpl; [done|].
  by rewrite (assoc_L (∪)), (idemp_L (∪)).
Qed.

Lemma after_step_ok c before after st k :
  k ∈ dict_keys after ->
  after_step c before after st k =
  Ok (record_all c (after_events before after [k]) st).
Proof.
  intros Hk. unfold after_step, after_events, spec_outcome. simpl.
  pose proof (proj2 (dict_contains_true after k) Hk) as Hc. rewrite Hc.
  apply dict_get_is_Some in Hk as [a Ha].
  unfold dict_contains, dict_getitem, dict_get_default. rewrite Ha.
  destruct (dict_get before k) as [b|]; simpl; [|done].
  destruct (decide (b = a)) as [->|Hne].
  - by rewrite bool_decide_true.
  - by rewrite bool_decide_false.
Qed.

Lemma after_events_cons before after k ks :
  after_events before after (k :: ks) =
  after_events before after [k] ++ after_events before after ks.
Proof.
  unfold after_events. simpl.
  by destruct (pair k <$> _).
Qed.

Lemma for_each_after_step c before after ks st :
  ks ⊆ dict_keys after ->
  for_each ks st (after_step c before after) =
  Ok (record_all c (after_events before after ks) st).
Proof.
  revert st. induction ks as [|k ks IH]; intros st Hks; [done|].
  rewrite (after_events_cons _ _ k ks), record_all_app.
  cbn [for_each]. rewrite after_step_ok by set_solver. cbn [bind].
  apply IH. set_solver.
Qed.

Lemma for_each_before_step c after ks st :
  for_each ks st (before_step c after) =
  Ok (record_all c (removed_events after ks) st).
Proof.
  revert st. induction ks as [|k ks IH]; intros st; [done|].
  cbn [for_each]. unfold before_step at 1, removed_events. simpl.
  destruct (dict_contains after k); simpl; apply IH.
Qed.

Lemma classify_ok c before after st :
  classify c before after st = Ok (record_all c (pair_events before after) st).
Proof.
  unfold classify, pair_events.
  rewrite for_each_after_step by done. simpl.
  by rewrite for_each_before_step, record_all_app.
Qed.

Lemma file_step_ok c st f :
  file_step c st f = Ok (record_all c (file_events f) st).
Proof.
  unfold file_step, file_events.
  destruct (decide (filename f = lit "pom.xml")) as [E|E].
  - rewrite bool_decide_false by auto. rewrite !parse_ok. simpl.
    rewrite !dict_or_empty_id. apply classify_ok.
  - by rewrite bool_decide_true.
Qed.

Lemma for_each_file_step c fs st :
  for_each fs st (file_step c) = Ok (record_all c (flat_map file_events fs) st).
Proof.
  revert st. induction fs as [|f fs IH]; intros st; [done|].
  cbn [for_each]. rewrite file_step_ok. simpl.
  by rewrite IH, record_all_app.
Qed.

Lemma commit_step_ok st c :
  commit_step st c = Ok (record_all c (commit_events c) st).
Proof. apply for_each_file_step. Qed.

Lemma for_each_commit_step cs st :
  for_each cs st commit_step = Ok (record_commits st cs).
Proof.
  revert st. induction cs as [|c cs IH]; intros st; [done|].
  cbn [for_each]. rewrite commit_step_ok. simpl. apply IH.
Qed.

Lemma record_commits_rows cs st :
  rows (record_commits st cs) =
  rows st ++ flat_map (fun c => map (mk_row c) (commit_events c)) cs.
Proof.
  revert st. induction cs as [|c cs IH]; intros st; simpl.
  - by rewrite app_nil_r.
  - unfold record_commits in *. simpl.
    by rewrite IH, record_all_rows, <- app_assoc.
Qed.

Lemma record_change_invariant c k change st :
  seen_matches_rows st -> seen_matches_rows (record_change c k change st).
Proof.
  intros H h. unfold record_change. simpl.
  rewrite elem_of_union, elem_of_singleton, (H h). split.
  - intros [->|(r & Hr & Hh)].
    + eexists. split; [apply elem_of_app; right; left | done].
    + exists r. split; [apply elem_of_app; by left | done].
  - intros (r & Hr & Hh). apply elem_of_app in Hr as [Hr|Hr].
    + right. eauto.
    + apply list_elem_of_singleton in Hr as ->. by left.
Qed.

Lemma empty_state_invariant : seen_matches_rows empty_state.
Proof.
  intros h. simpl. split.
  - by intros ?%not_elem_of_empty.
  - by intros (r & ?%elem_of_nil & _).
Qed.

Lemma record_all_invariant c es st :
  seen_matches_rows st -> seen_matches_rows (record_all c es st).
Proof.
  revert st. induction es as [|e es IH]; intros st H; [done|].
  apply IH. by apply record_change_invariant.
Qed.

Lemma record_commits_invariant cs st :
  seen_matches_rows st -> seen_matches_rows (record_commits st cs).
Proof.
  revert st. induction cs as [|c cs IH]; intros st H; [done|].
  apply IH. by apply record_all_invariant.
Qed.

(** ** The model on the scenarios of the specification *)

Example parse_repeated_key :
  _parse_dependency_blocks (Some pom_repeated_key)
  = Ok [(lit "org.a:lib", PyStr (lit "2.0"));
        (lit "org.a:core", PyStr (lit "3.0"))].
Proof. by vm_compute. Qed.

Example parse_malformed :
  _parse_dependency_blocks
    (Some (lit "<dependency><groupId>org.a</groupId><artifactId>lib"))
  = Ok [].
Proof. by vm_compute. Qed.

Example scenario_added :
  rows_of (classify commit_c1 [] [(lit "org.a:lib", PyStr (lit "1.0"))]
             empty_state)
  = [mk_row commit_c1 (lit "org.a:lib", lit "added")].
Proof. by vm_compute. Qed.

Example scenario_changed :
  rows_of (classify commit_c1 [(lit "org.a:lib", PyStr (lit "1.0"))]
             [(lit "org.a:lib", PyStr (lit "2.0"))] empty_state)
  = [mk_row commit_c1 (lit "org.a:lib", lit "changed from 1.0 to 2.0")].
Proof. by vm_compute. Qed.

Example scenario_removed :
  rows_of (classify commit_c1 [(lit "org.a:lib", PyStr (lit "1.0"))] []
             empty_state)
  = [mk_row commit_c1 (lit "org.a:lib", lit "removed")].
Proof. by vm_compute. Qed.

Example scenario_old_to_new :
  rows_of (classify commit_c1 snapshot_old snapshot_new empty_state)
  = [mk_row commit_c1 (lit "org.a:lib", lit "changed from 1.0 to 2.0");
     mk_row commit_c1 (lit "org.c:y", lit "added");
     mk_row commit_c1 (lit "org.b:x", lit "removed")].
Proof. by vm_compute. Qed.

Example mine_history :
  exists st,
    mine_repository history = Ok st
    /\ rows st
       = [(lit "c1", 10%Z, lit "ann", lit "org.a:lib", lit "added");
          (lit "c3", 30%Z, lit "ann", lit "org.a:lib",
           lit "changed from 1.0 to 2.0");
          (lit "c3", 30%Z, lit "ann", lit "org.a:core", lit "added")]
    /\ forall h, h ∈ seen st <-> h = lit "c1" \/ h = lit "c3".
Proof.
  exists (record_commits empty_state history).
  split; [apply for_each_commit_step|].
  assert (rows (record_commits empty_state history)
          = [(lit "c1", 10%Z, lit "ann", lit "org.a:lib", lit "added");
             (lit "c3", 30%Z, lit "ann", lit "org.a:lib",
              lit "changed from 1.0 to 2.0");
             (lit "c3", 30%Z, lit "ann", lit "org.a:core", lit "added")])
    as Hrows by (by vm_compute).
  split; [done|]. intros h.
  rewrite (record_commits_invariant history empty_state
             empty_state_invariant h), Hrows.
  split.
  - intros (r & Hr & <-).
    repeat (apply elem_of_cons in Hr as [->|Hr]; [by auto|]).
    by apply elem_of_nil in Hr.
  - intros [->| ->].
    + eexists. split; [left|]. done.
    + eexists. split; [right; left|]. done.
Qed.

(** ** What the parser stores *)

Lemma parse_block_yields b k v :
  parse_block [] b = Ok [(k, v)] <->
  exists s, block_entry b = Some (k, s) /\ v = PyStr s.
Proof.
  rewrite parse_block_ok. unfold add_entry.
  destruct (block_entry b) as [[k0 s0]|]; simpl.
  - split.
    + intros [= <- <-]. eauto.
    + by intros (s & [= <- <-] & ->).
  - split; [done | by intros (s & ? & _)].
Qed.

Lemma add_entries_skip_versionless blocks deps :
  foldl add_entry deps
    (filter (fun b => Re.is_match (Re.search "version" b)) blocks)
  = foldl add_entry deps blocks.
Proof.
  revert deps. induction blocks as [|b bs IH]; intros deps; [done|].
  rewrite filter_cons. destruct (decide _) as [Hv|Hv]; simpl; [apply IH|].
  rewrite IH. f_equal. unfold add_entry, block_entry.
  destruct (Re.search "version" b); [by destruct Hv|].
  destruct (Re.search "groupId" b); [|done].
  by destruct (Re.search "artifactId" b).
Qed.

Lemma block_entry_version b k s :
  block_entry b = Some (k, s) ->
  (forall c, head s = Some c -> isspace c = false)
  /\ (forall c, last s = Some c -> isspace c = false)
  /\ 60%N ∉ s.
Proof.
  unfold block_entry.
  destruct (Re.search "groupId" b) as [g|]; [|done].
  destruct (Re.search "artifactId" b) as [a|]; [|done].
  destruct (Re.search "version" b) as [v|] eqn:E; [|done].
  intros [= _ <-]. apply search_group in E as [_ Hlt].
  split; [apply strip_head|]. split; [apply strip_last|].
  intros Hin. by apply strip_elem in Hin.
Qed.

Lemma snapshot_entry o k v :
  dict_get (snapshot o) k = Some v ->
  exists text b s, o = Some text /\ b ∈ Re.findall_dependency text
    /\ block_entry b = Some (k, s) /\ v = PyStr s.
Proof.
  destruct o as [text|]; simpl; [|done].
  intros H. apply add_entries_origin in H as [H|(b & s & Hin & Hb & ->)];
    [done|].
  by exists text, b, s.
Qed.

(** C5: the parser returns a snapshot for every input, null, empty or
    malformed, and raises nothing; null and empty text give the empty
    snapshot; classifying two empty snapshots leaves both the rows and the
    set of touched commits as they were. *)
Theorem parser_total_and_empty_inputs :
  (forall o : option str, exists d, _parse_dependency_blocks o = Ok d)
  /\ _parse_dependency_blocks None = Ok []
  /\ _parse_dependency_blocks (Some []) = Ok []
  /\ (forall c st, classify c [] [] st = Ok st).
Proof.
  split; [|done]. intros o. exists (snapshot o). apply parse_ok.
Qed.

(** C1, as the specification states it, fails: for a block with a group
    and an artifact but no version the parser stores nothing, so the key
    is not mapped to a null version. *)
Lemma versionless_block_counterexample :
  _parse_dependency_blocks (Some pom_without_version) = Ok []
  /\ ~ (exists d, _parse_dependency_blocks (Some pom_without_version) = Ok d
                  /\ dict_get d (lit "org.a:lib") = Some PyNone).
Proof.
  split; [by vm_compute|].
  intros (d & Hd & Hk). vm_compute in Hd. injection Hd as <-. done.
Qed.

(** C1, amended: for every manifest text the parser raises nothing, a
    block without a version match is discarded (the snapshot is the one
    obtained from the blocks that have a version match alone, and the loop
    body leaves the dictionary as it is for such a block), and no key is
    mapped to a null version. *)
Theorem versionless_block_discarded (text : str) :
  exists d,
    _parse_dependency_blocks (Some text) = Ok d
    /\ for_each
         (filter (fun b => Re.is_match (Re.search "version" b))
                 (Re.findall_dependency text))
         [] parse_block = Ok d
    /\ (forall deps b,
          Re.search "version" b = None -> parse_block deps b = Ok deps)
    /\ forall k, dict_get d k <> Some PyNone.
Proof.
  exists (snapshot (Some text)). split; [apply parse_ok|]. split; [|split].
  - rewrite for_each_parse_block. simpl.
    by rewrite add_entries_skip_versionless.
  - intros deps b Hv. rewrite parse_block_ok. unfold add_entry, block_entry.
    rewrite Hv. destruct (Re.search "groupId" b); [|done].
    by destruct (Re.search "artifactId" b).
  - intros k H. by apply snapshot_entry in H as (? & ? & ? & _ & _ & _ & ?).
Qed.

(** C6: when several blocks yield the same key, the snapshot maps the key
    to the version of the block that comes last in document order. The
    blocks are those [re.findall] returns; [b] yields [k] with version [v]
    and no block after [b] yields [k]. *)
Theorem last_block_wins (text : str) (bs1 bs2 : list str) (b k : str)
    (v : pyval) :
  Re.findall_dependency text = bs1 ++ b :: bs2 ->
  parse_block [] b = Ok [(k, v)] ->
  (forall b' v', b' ∈ bs2 -> parse_block [] b' <> Ok [(k, v')]) ->
  exists d, _parse_dependency_blocks (Some text) = Ok d
            /\ dict_get d k = Some v.
Proof.
  intros Hblocks Hb Hlater. exists (snapshot (Some text)).
  split; [apply parse_ok|]. simpl. rewrite Hblocks.
  apply parse_block_yields in Hb as (s & Hb & ->).
  apply add_entries_last; [done|].
  intros b' s' Hin Hb'. apply (Hlater b' (PyStr s') Hin).
  apply parse_block_yields. eauto.
Qed.

Lemma last_block_wins_witness :
  exists d, _parse_dependency_blocks (Some pom_repeated_key) = Ok d
            /\ dict_get d (lit "org.a:lib") = Some (PyStr (lit "2.0")).
Proof.
  apply (last_block_wins pom_repeated_key [block_lib_1] [block_core_3]
           block_lib_2).
  - vm_compute. reflexivity.
  - vm_compute. reflexivity.
  - intros b' v' Hin. apply list_elem_of_singleton in Hin as ->.
    vm_compute. intros H. discriminate H.
Defined.

Lemma snapshot_key text k :
  k ∈ dict_keys (snapshot (Some text)) ->
  exists b g a, b ∈ Re.findall_dependency text
    /\ Re.search "groupId" b = Some g
    /\ Re.search "artifactId" b = Some a
    /\ k = strip (Re.group1 g) ++ lit ":" ++ strip (Re.group1 a).
Proof.
  intros [v Hv]%dict_get_is_Some.
  apply snapshot_entry in Hv as (t & b & s & [= <-] & Hin & Hb & _).
  unfold block_entry in Hb.
  destruct (Re.search "groupId" b) as [g|] eqn:Eg; [|done].
  destruct (Re.search "artifactId" b) as [a|] eqn:Ea; [|done].
  destruct (Re.search "version" b) as [v'|]; [|done].
  injection Hb as <- _. by exists b, g, a.
Qed.

(** C9: every key of a snapshot is [group + ":" + artifact] for the
    trimmed group and artifact of one block, and two blocks with the same
    group and different artifacts are stored under two different keys,
    both present in the snapshot. *)
Theorem keys_are_group_colon_artifact (text : str) :
  exists d,
    _parse_dependency_blocks (Some text) = Ok d
    /\ (forall k, k ∈ dict_keys d ->
          exists b g a, b ∈ Re.findall_dependency text
            /\ Re.search "groupId" b = Some g
            /\ Re.search "artifactId" b = Some a
            /\ k = strip (Re.group1 g) ++ lit ":" ++ strip (Re.group1 a))
    /\ (forall b1 b2 g1 a1 v1 g2 a2 v2,
          b1 ∈ Re.findall_dependency text ->
          b2 ∈ Re.findall_dependency text ->
          Re.search "groupId" b1 = Some g1 ->
          Re.search "artifactId" b1 = Some a1 ->
          Re.search "version" b1 = Some v1 ->
          Re.search "groupId" b2 = Some g2 ->
          Re.search "artifactId" b2 = Some a2 ->
          Re.search "version" b2 = Some v2 ->
          strip (Re.group1 g1) = strip (Re.group1 g2) ->
          strip (Re.group1 a1) <> strip (Re.group1 a2) ->
          let k1 := strip (Re.group1 g1) ++ lit ":" ++ strip (Re.group1 a1) in
          let k2 := strip (Re.group1 g2) ++ lit ":" ++ strip (Re.group1 a2) in
          k1 <> k2 /\ k1 ∈ dict_keys d /\ k2 ∈ dict_keys d).
Proof.
  exists (snapshot (Some text)). split; [apply parse_ok|].
  split; [apply snapshot_key|].
  intros b1 b2 g1 a1 v1 g2 a2 v2 Hb1 Hb2 Hg1 Ha1 Hv1 Hg2 Ha2 Hv2 Hg Ha k1 k2.
  split; [|split].
  - subst k1 k2. rewrite Hg. intros H. by do 2 apply app_inv_head in H.
  - eapply (add_entries_stores _ _ b1); [done|].
    unfold block_entry. by rewrite Hg1, Ha1, Hv1.
  - eapply (add_entries_stores _ _ b2); [done|].
    unfold block_entry. by rewrite Hg2, Ha2, Hv2.
Qed.

Lemma keys_are_group_colon_artifact_witness :
  exists d,
    _parse_dependency_blocks (Some pom_repeated_key) = Ok d
    /\ lit "org.a:lib" <> lit "org.a:core"
    /\ lit "org.a:lib" ∈ dict_keys d
    /\ lit "org.a:core" ∈ dict_keys d.
Proof.
  destruct (keys_are_group_colon_artifact pom_repeated_key)
    as (d & Hd & _ & H).
  exists d. split; [exact Hd|].
  assert (Re.findall_dependency pom_repeated_key
          = [block_lib_1; block_lib_2; block_core_3]) as Hblocks
    by (vm_compute; reflexivity).
  apply (H block_lib_2 block_core_3
           {| Re.group1 := lit "org.a" |} {| Re.group1 := lit "lib" |}
           {| Re.group1 := lit "2.0" |}
           {| Re.group1 := lit "org.a" |} {| Re.group1 := lit "core" |}
           {| Re.group1 := lit "3.0" |}).
  - rewrite Hblocks. right. left.
  - rewrite Hblocks. right. right. left.
  - vm_compute. reflexivity.
  - vm_compute. reflexivity.
  - vm_compute. reflexivity.
  - vm_compute. reflexivity.
  - vm_compute. reflexivity.
  - vm_compute. reflexivity.
  - vm_compute. reflexivity.
  - vm_compute. intros H'. discriminate H'.
Defined.

(** ** What a pair of snapshots emits *)

Lemma spec_outcome_added before after k :
  spec_outcome before after k = Some (lit "added") <->
  dict_get before k = None /\ is_Some (dict_get after k).
Proof.
  unfold spec_outcome.
  destruct (dict_get before k) as [b|], (dict_get after k) as [a|].
  - destruct (decide (b = a)); (split; [done | by intros [? _]]).
  - split; [done | by intros [? _]].
  - split; [by eauto | done].
  - split; [done | by intros [_ [? ?]]].
Qed.

Lemma spec_outcome_removed before after k :
  spec_outcome before after k = Some (lit "removed") <->
  is_Some (dict_get before k) /\ dict_get after k = None.
Proof.
  unfold spec_outcome.
  destruct (dict_get before k) as [b|], (dict_get after k) as [a|].
  - destruct (decide (b = a)); (split; [done | by intros [_ ?]]).
  - split; [by eauto | done].
  - split; [done | by intros [_ ?]].
  - split; [done | by intros [[? ?] _]].
Qed.

Lemma spec_outcome_changed before after k b a :
  dict_get before k = Some b -> dict_get after k = Some a ->
  spec_outcome before after k = Some (changed_text b a) <-> b <> a.
Proof.
  intros Hb Ha. unfold spec_outcome. rewrite Hb, Ha.
  destruct (decide (b = a)); split; done.
Qed.

(** What the two loops emit, key by key. *)
Lemma pair_events_elem before after e :
  e ∈ pair_events before after <-> spec_outcome before after e.1 = Some e.2.
Proof.
  unfold pair_events, after_events, removed_events.
  rewrite elem_of_app, !list_elem_of_omap. split.
  - intros [(k & Hk & He)|(k & Hk & He)].
    + destruct (dict_contains after k); [|done].
      destruct (spec_outcome before after k) eqn:E; [|done].
      injection He as <-. done.
    + destruct (dict_contains after k) eqn:Hc; [done|].
      injection He as <-. simpl. apply spec_outcome_removed.
      split; [by apply dict_get_is_Some | ].
      by apply dict_get_None, dict_contains_false.
  - destruct e as [k ch]. simpl. intros H.
    destruct (dict_contains after k) eqn:Hc.
    + left. exists k. rewrite Hc, H. split; [|done].
      by apply dict_contains_true.
    + right. exists k. rewrite Hc.
      apply dict_contains_false, dict_get_None in Hc.
      unfold spec_outcome in H. rewrite Hc in H.
      destruct (dict_get before k) eqn:Hb; [|done].
      injection H as <-. split; [|done].
      apply dict_get_is_Some. by rewrite Hb.
Qed.

Lemma elem_of_flat_map {A B} (f : A -> list B) (l : list A) (y : B) :
  y ∈ flat_map f l <-> exists x, x ∈ l /\ y ∈ f x.
Proof.
  rewrite list_elem_of_In, in_flat_map.
  split; intros (x & Hx & Hy); exists x; by rewrite ?list_elem_of_In in *.
Qed.

(** Every row was emitted for one [pom.xml] of one commit. *)
Lemma mined_row_origin cs r :
  r ∈ rows (record_commits {| rows := []; seen := ∅ |} cs) ->
  exists c f e,
    c ∈ cs /\ f ∈ modified_files c /\ filename f = lit "pom.xml"
    /\ r = mk_row c e
    /\ spec_outcome (snapshot (source_code_before f))
                    (snapshot (source_code f)) e.1 = Some e.2.
Proof.
  rewrite record_commits_rows. simpl.
  intros (c & Hc & Hr)%elem_of_flat_map.
  apply list_elem_of_fmap in Hr as (e & -> & He).
  apply elem_of_flat_map in He as (f & Hf & He).
  unfold file_events in He.
  destruct (decide (filename f = lit "pom.xml")) as [Hname|];
    [|by apply elem_of_nil in He].
  apply pair_events_elem in He. by exists c, f, e.
Qed.

Lemma mine_repository_ok cs :
  mine_repository cs = Ok (record_commits {| rows := []; seen := ∅ |} cs).
Proof. apply for_each_commit_step. Qed.

(** C10, as stated, fails on its "non-empty" part: a version tag that
    holds only white space is stored as the empty string. *)
Lemma blank_version_counterexample :
  _parse_dependency_blocks (Some pom_blank_version)
    = Ok [(lit "org.a:lib", PyStr [])]
  /\ ~ (forall text d k v,
          _parse_dependency_blocks (Some text) = Ok d ->
          dict_get d k = Some v ->
          exists s, v = PyStr s /\ s <> []).
Proof.
  split; [by vm_compute|]. intros H.
  destruct (H pom_blank_version [(lit "org.a:lib", PyStr [])]
              (lit "org.a:lib") (PyStr [])) as (s & [= <-] & Hs);
    [by vm_compute | by vm_compute | done].
Qed.

(** C10, amended: every version in a snapshot of the parser is a string,
    never null, with no white space at either end and no [<] in it (it
    may be empty); and every change text the pipeline emits for a changed
    version is built from two such strings, the versions of the key in the
    two snapshots of one [pom.xml]. *)
Theorem versions_are_trimmed_strings :
  (forall o : option str,
     exists d, _parse_dependency_blocks o = Ok d
       /\ forall k v, dict_get d k = Some v ->
            exists s, v = PyStr s
              /\ (forall c, head s = Some c -> isspace c = false)
              /\ (forall c, last s = Some c -> isspace c = false)
              /\ 60%N ∉ s)
  /\ (forall commits : list Commit,
        exists st, mine_repository commits = Ok st
          /\ forall r, r ∈ rows st ->
               row_change r = lit "added"
               \/ row_change r = lit "removed"
               \/ exists x y c f before after,
                    row_change r = lit "changed from " ++ x ++ lit " to " ++ y
                    /\ c ∈ commits /\ f ∈ modified_files c
                    /\ _parse_dependency_blocks (source_code_before f)
                       = Ok before
                    /\ _parse_dependency_blocks (source_code f) = Ok after
                    /\ dict_get before (row_key r) = Some (PyStr x)
                    /\ dict_get after (row_key r) = Some (PyStr y)).
Proof.
  split.
  - intros o. exists (snapshot o). split; [apply parse_ok|].
    intros k v H. apply snapshot_entry in H as (t & b & s & _ & _ & Hb & ->).
    exists s. split; [done|]. by eapply block_entry_version.
  - intros commits. eexists. split; [apply mine_repository_ok|].
    intros r Hr.
    apply mined_row_origin in Hr as (c & f & [k ch] & Hc & Hf & _ & -> & He).
    unfold row_change, row_key. simpl in *. unfold spec_outcome in He.
    destruct (dict_get (snapshot (source_code_before f)) k) as [b|] eqn:Hb,
             (dict_get (snapshot (source_code f)) k) as [a|] eqn:Ha;
      try done.
    + destruct (decide (b = a)); [done|]. injection He as <-.
      right. right.
      pose proof Hb as Hb'. pose proof Ha as Ha'.
      apply snapshot_entry in Hb' as (_ & _ & x & _ & _ & _ & ->).
      apply snapshot_entry in Ha' as (_ & _ & y & _ & _ & _ & ->).
      exists x, y, c, f, (snapshot (source_code_before f)),
        (snapshot (source_code f)).
      by rewrite !parse_ok.
    + injection He as <-. auto.
    + injection He as <-. auto.
Qed.

(** C2, as stated, fails: the loop compares the file's name, not its
    path, so a modified file at [sub/pom.xml] is parsed and classified: here
    it contributes two rows. *)
Lemma sub_directory_manifest_counterexample :
  rows_of (file_step commit_c1 empty_state
             (walker_file (lit "sub/pom.xml") None (Some pom_repeated_key)))
  = [mk_row commit_c1 (lit "org.a:lib", lit "added");
     mk_row commit_c1 (lit "org.a:core", lit "added")]
  /\ ~ (forall c st path before after,
          path <> lit "pom.xml" ->
          file_step c st (walker_file path before after) = Ok st).
Proof.
  split; [by vm_compute|]. intros H.
  specialize (H commit_c1 empty_state (lit "sub/pom.xml") None
                (Some pom_repeated_key)).
  assert (lit "sub/pom.xml" <> lit "pom.xml") as Hne by done.
  apply H in Hne. vm_compute in Hne. discriminate Hne.
Qed.

(** C2, amended: a modified file is parsed and classified exactly when its
    file name, the last component of its path, is [pom.xml]. A file at
    [sub/pom.xml] is classified like the root manifest; a file with another
    name leaves the rows and the set of touched commits as they were,
    whatever it contains, and a commit gives the same result with or without
    it. *)
Theorem file_name_decides_mining (c : Commit) (path : str)
    (text_before text_after : option str) (st : MiningState) :
  exists before after,
    _parse_dependency_blocks text_before = Ok before
    /\ _parse_dependency_blocks text_after = Ok after
    /\ file_step c st (walker_file path text_before text_after)
       = (if decide (basename path = lit "pom.xml")
          then classify c before after st
          else Ok st)
    /\ file_step c st (walker_file (lit "sub/pom.xml") text_before text_after)
       = classify c before after st
    /\ (basename path <> lit "pom.xml" ->
        forall fs1 fs2,
          for_each (fs1 ++ walker_file path text_before text_after :: fs2)
                   st (file_step c)
          = for_each (fs1 ++ fs2) st (file_step c)).
Proof.
  exists (snapshot text_before), (snapshot text_after).
  rewrite !parse_ok. split; [done|]. split; [done|].
  assert (forall p, basename p = lit "pom.xml" ->
            file_step c st (walker_file p text_before text_after)
            = classify c (snapshot text_before) (snapshot text_after) st)
    as Hpom.
  { intros p Hp. unfold file_step. simpl. rewrite Hp.
    rewrite bool_decide_false by (intros H; by apply H).
    rewrite !parse_ok. simpl. by rewrite !dict_or_empty_id. }
  split; [|split].
  - destruct (decide (basename path = lit "pom.xml")) as [E|E].
    + by apply Hpom.
    + unfold file_step. simpl. by rewrite bool_decide_true.
  - by apply Hpom.
  - intros Hname fs1 fs2. rewrite !for_each_file_step. do 2 f_equal.
    rewrite !flat_map_app. simpl. unfold file_events at 2. simpl.
    by rewrite decide_False.
Qed.

(** ** One outcome per key *)

Lemma omap_pair_cons (F : str -> option str) (k0 : str) (ks : list str) :
  omap (fun k' => pair k' <$> F k') (k0 :: ks)
  = match F k0 with
    | Some ch => (k0, ch) :: omap (fun k' => pair k' <$> F k') ks
    | None => omap (fun k' => pair k' <$> F k') ks
    end.
Proof. cbn. by destruct (F k0). Qed.

Lemma filter_key_omap (F : str -> option str) (ks : list str) (k : str) :
  NoDup ks ->
  filter (fun e : str * str => e.1 = k) (omap (fun k' => pair k' <$> F k') ks)
  = if decide (k ∈ ks)
    then match F k with Some ch => [(k, ch)] | None => [] end
    else [].
Proof.
  induction ks as [|k0 ks IH]; intros Hnd.
  - by rewrite decide_False by apply not_elem_of_nil.
  - apply NoDup_cons in Hnd as [Hnin Hnd]. specialize (IH Hnd).
    rewrite omap_pair_cons.
    destruct (decide (k0 = k)) as [->|Hne].
    + rewrite decide_False in IH by done.
      rewrite decide_True by left.
      destruct (F k) as [ch|]; [|done].
      by rewrite filter_cons_True, IH.
    + assert (filter (fun e : str * str => e.1 = k)
                match F k0 with
                | Some ch => (k0, ch) :: omap (fun k' => pair k' <$> F k') ks
                | None => omap (fun k' => pair k' <$> F k') ks
                end
              = filter (fun e : str * str => e.1 = k)
                  (omap (fun k' => pair k' <$> F k') ks)) as ->.
      { destruct (F k0); [|done]. by rewrite filter_cons_False. }
      rewrite IH. destruct (decide (k ∈ ks)) as [Hin|Hin].
      * by rewrite decide_True by (by right).
      * rewrite decide_False; [done|].
        intros [?|?]%elem_of_cons; congruence.
Qed.

Lemma filter_key_pair_events before after k :
  NoDup (dict_keys before) -> NoDup (dict_keys after) ->
  filter (fun e : str * str => e.1 = k) (pair_events before after)
  = match spec_outcome before after k with
    | Some ch => [(k, ch)]
    | None => []
    end.
Proof.
  intros Hb Ha. unfold pair_events, after_events, removed_events.
  rewrite filter_app, !filter_key_omap by done.
  unfold spec_outcome, dict_contains.
  destruct (dict_get after k) as [a|] eqn:Ea.
  - rewrite decide_True by (apply dict_get_is_Some; by rewrite Ea).
    destruct (decide (k ∈ dict_keys before)); simpl; by rewrite app_nil_r.
  - rewrite decide_False by (by apply dict_get_None).
    destruct (dict_get before k) as [b|] eqn:Eb.
    + by rewrite decide_True by (apply dict_get_is_Some; by rewrite Eb).
    + by rewrite decide_False by (by apply dict_get_None).
Qed.

Lemma filter_key_rows c es k :
  filter (fun r : Row => row_key r = k) (map (mk_row c) es)
  = map (mk_row c) (filter (fun e : str * str => e.1 = k) es).
Proof.
  induction es as [|e es IH]; [done|]. simpl.
  rewrite !filter_cons, IH.
  change (row_key (mk_row c e)) with e.1.
  by destruct (decide (e.1 = k)).
Qed.

(** C3: for two snapshots and any key, the rows the classifier appends
    hold exactly the outcome the rule gives for that key: one [added] row
    when the key is only in [after], one [changed from X to Y] row when
    it is in both with different versions (a null version included), one
    [removed] row when it is only in [before], and no row otherwise. *)
Theorem one_outcome_per_key (c : Commit) (before after : dict)
    (st : MiningState) :
  NoDup (dict_keys before) -> NoDup (dict_keys after) ->
  exists new seen',
    classify c before after st = Ok {| rows := rows st ++ new; seen := seen' |}
    /\ forall k,
         filter (fun r : Row => row_key r = k) new
         = match spec_outcome before after k with
           | Some change => [(hash c, author_date c, author_name c, k, change)]
           | None => []
           end.
Proof.
  intros Hb Ha.
  exists (map (mk_row c) (pair_events before after)),
    (seen (record_all c (pair_events before after) st)).
  split.
  - rewrite classify_ok, <- record_all_rows. by destruct (record_all _ _ _).
  - intros k. rewrite filter_key_rows, filter_key_pair_events by done.
    by destruct (spec_outcome before after k).
Qed.

Lemma one_outcome_per_key_witness :
  exists new seen',
    classify commit_c1 snapshot_old snapshot_new empty_state
    = Ok {| rows := rows empty_state ++ new; seen := seen' |}
    /\ forall k,
         filter (fun r : Row => row_key r = k) new
         = match spec_outcome snapshot_old snapshot_new k with
           | Some change =>
               [(hash commit_c1, author_date commit_c1, author_name commit_c1,
                 k, change)]
           | None => []
           end.
Proof.
  apply (one_outcome_per_key commit_c1 snapshot_old snapshot_new empty_state).
  - apply (bool_decide_unpack _). vm_compute. exact I.
  - apply (bool_decide_unpack _). vm_compute. exact I.
Defined.

Lemma spec_outcome_key before after k ch :
  spec_outcome before after k = Some ch ->
  k ∈ dict_keys before \/ k ∈ dict_keys after.
Proof.
  unfold spec_outcome. rewrite <- !dict_get_is_Some.
  destruct (dict_get before k), (dict_get after k); try done; eauto.
Qed.

Lemma mining_state_eq st r s :
  rows st = r -> seen st = s -> st = {| rows := r; seen := s |}.
Proof. destruct st. simpl. by intros -> ->. Qed.

Lemma commits_rows_by_pair cs :
  flat_map (fun c => map (mk_row c) (commit_events c)) cs
  = flat_map
      (fun c => flat_map (fun f => rows_of (file_step c empty_state f))
                         (modified_files c))
      cs.
Proof.
  induction cs as [|c cs IH]; [done|]. simpl. rewrite IH. f_equal.
  unfold commit_events.
  induction (modified_files c) as [|f fs IHf]; [done|]. simpl.
  rewrite map_app, IHf. f_equal.
  rewrite file_step_ok. simpl. by rewrite record_all_rows.
Qed.

(** C4: the rows are the rows generated pair by pair, one commit and one
    modified file at a time; the rows one pair generates carry the commit's
    hash and a key of the before- or the after-snapshot of that very file;
    and a commit hash is in [seen] exactly when some row carries it. *)
Theorem rows_and_seen_invariant (commits : list Commit) :
  exists st,
    mine_repository commits = Ok st
    /\ rows st
       = flat_map
           (fun c => flat_map (fun f => rows_of (file_step c empty_state f))
                              (modified_files c))
           commits
    /\ (forall c f st0,
          exists new seen' before after,
            _parse_dependency_blocks (source_code_before f) = Ok before
            /\ _parse_dependency_blocks (source_code f) = Ok after
            /\ file_step c st0 f
               = Ok {| rows := rows st0 ++ new; seen := seen' |}
            /\ new = rows_of (file_step c empty_state f)
            /\ forall r, r ∈ new ->
                 filename f = lit "pom.xml"
                 /\ row_hash r = hash c
                 /\ (row_key r ∈ dict_keys before
                     \/ row_key r ∈ dict_keys after))
    /\ (forall r, r ∈ rows st ->
          exists c f before after,
            c ∈ commits /\ f ∈ modified_files c
            /\ filename f = lit "pom.xml"
            /\ row_hash r = hash c
            /\ r ∈ rows_of (file_step c empty_state f)
            /\ _parse_dependency_blocks (source_code_before f) = Ok before
            /\ _parse_dependency_blocks (source_code f) = Ok after
            /\ (row_key r ∈ dict_keys before \/ row_key r ∈ dict_keys after))
    /\ (forall h, h ∈ seen st <-> exists r, r ∈ rows st /\ row_hash r = h).
Proof.
  eexists. split; [apply mine_repository_ok|]. split; [|split; [|split]].
  - rewrite record_commits_rows. simpl. apply commits_rows_by_pair.
  - intros c f st0.
    exists (map (mk_row c) (file_events f)),
      (seen (record_all c (file_events f) st0)),
      (snapshot (source_code_before f)), (snapshot (source_code f)).
    rewrite !parse_ok, !file_step_ok. simpl.
    split; [done|]. split; [done|]. split; [|split].
    + f_equal. apply mining_state_eq; [apply record_all_rows | done].
    + by rewrite record_all_rows.
    + intros r (e & -> & He)%list_elem_of_fmap. unfold file_events in He.
      destruct (decide (filename f = lit "pom.xml")) as [Hn|];
        [|by apply elem_of_nil in He].
      apply pair_events_elem in He. split; [done|]. split; [done|].
      by eapply spec_outcome_key.
  - intros r Hr. rewrite record_commits_rows in Hr. simpl in Hr.
    apply elem_of_flat_map in Hr as (c & Hc & Hr).
    apply list_elem_of_fmap in Hr as (e & -> & He).
    apply elem_of_flat_map in He as (f & Hf & He).
    exists c, f, (snapshot (source_code_before f)), (snapshot (source_code f)).
    rewrite !parse_ok, file_step_ok. simpl. rewrite record_all_rows. simpl.
    assert (mk_row c e ∈ map (mk_row c) (file_events f)) as Hin
      by (apply list_elem_of_fmap; eauto).
    unfold file_events in He.
    destruct (decide (filename f = lit "pom.xml")) as [Hn|];
      [|by apply elem_of_nil in He].
    apply pair_events_elem in He.
    repeat (split; [done|]). by eapply spec_outcome_key.
  - apply record_commits_invariant, empty_state_invariant.
Qed.

(** ** Reversing the direction *)

Lemma mk_row_elem c e es : mk_row c e ∈ map (mk_row c) es <-> e ∈ es.
Proof.
  destruct e as [k0 ch0]. rewrite list_elem_of_fmap. split.
  - by intros ([k ch] & [= -> ->] & H).
  - intros H. by exists (k0, ch0).
Qed.

Lemma classify_rows c before after st :
  classify c before after st
  = Ok {| rows := rows st ++ map (mk_row c) (pair_events before after);
          seen := seen (record_all c (pair_events before after) st) |}.
Proof.
  rewrite classify_ok, <- record_all_rows. by destruct (record_all _ _ _).
Qed.

(** C7: classifying (A, B) and (B, A) gives complementary rows on the
    same keys: [added] one way is [removed] the other way, and [changed
    from X to Y] one way is [changed from Y to X] the other way, where X
    and Y are the versions of the key in A and in B. *)
Theorem reverse_direction_is_complementary (c : Commit) (A B : dict)
    (st : MiningState) :
  exists rAB sAB rBA sBA,
    classify c A B st = Ok {| rows := rows st ++ rAB; seen := sAB |}
    /\ classify c B A st = Ok {| rows := rows st ++ rBA; seen := sBA |}
    /\ (forall k, mk_row c (k, lit "added") ∈ rAB
                  <-> mk_row c (k, lit "removed") ∈ rBA)
    /\ (forall k, mk_row c (k, lit "removed") ∈ rAB
                  <-> mk_row c (k, lit "added") ∈ rBA)
    /\ (forall k x y,
          dict_get A k = Some x -> dict_get B k = Some y ->
          (mk_row c (k, changed_text x y) ∈ rAB <-> x <> y)
          /\ (mk_row c (k, changed_text y x) ∈ rBA <-> x <> y))
    /\ (forall k, (exists r, r ∈ rAB /\ row_key r = k)
                  <-> (exists r, r ∈ rBA /\ row_key r = k)).
Proof.
  do 4 eexists. split; [apply classify_rows|]. split; [apply classify_rows|].
  split; [|split; [|split]].
  - intros k. rewrite !mk_row_elem, !pair_events_elem. simpl.
    rewrite spec_outcome_added, spec_outcome_removed. tauto.
  - intros k. rewrite !mk_row_elem, !pair_events_elem. simpl.
    rewrite spec_outcome_added, spec_outcome_removed. tauto.
  - intros k x y Hx Hy. rewrite !mk_row_elem, !pair_events_elem. simpl.
    rewrite (spec_outcome_changed A B k x y), (spec_outcome_changed B A k y x)
      by done.
    split; [done|]. split; intros H E; by apply H.
  - assert (forall X Y k,
              (exists r : Row, r ∈ map (mk_row c) (pair_events X Y)
                               /\ row_key r = k)
              <-> dict_get X k <> dict_get Y k) as Hkey.
    { intros X Y k. split.
      - intros (r & Hr & <-).
        apply list_elem_of_fmap in Hr as ([k ch] & -> & He).
        apply pair_events_elem in He. unfold row_key. simpl in *.
        unfold spec_outcome in He.
        destruct (dict_get X k), (dict_get Y k); try done.
        destruct (decide (p = p0)); [done | congruence].
      - intros Hne.
        destruct (spec_outcome X Y k) as [ch|] eqn:E.
        + exists (mk_row c (k, ch)). split; [|done].
          by apply mk_row_elem, pair_events_elem.
        + exfalso. unfold spec_outcome in E.
          destruct (dict_get X k), (dict_get Y k); try done.
          destruct (decide (p = p0)); [congruence | done]. }
    intros k. rewrite !Hkey. split; intros H E; by apply H.
Qed.

(** ** Order of the rows *)

Lemma file_step_rows c f :
  rows_of (file_step c empty_state f) = map (mk_row c) (file_events f).
Proof. rewrite file_step_ok. simpl. by rewrite record_all_rows. Qed.

Lemma flat_map_fmap {A B C} (g : B -> C) (f : A -> list B) (l : list A) :
  flat_map (fun x => map g (f x)) l = map g (flat_map f l).
Proof.
  induction l as [|x l IH]; [done|]. simpl. by rewrite IH, map_app.
Qed.

Lemma after_events_shape before after ks e :
  e ∈ after_events before after ks ->
  e.1 ∈ dict_keys after
  /\ (e.2 = lit "added" \/ exists b a, e.2 = changed_text b a).
Proof.
  unfold after_events. intros (k & _ & He)%list_elem_of_omap.
  destruct (dict_contains after k) eqn:Hc; [|done].
  apply dict_contains_true in Hc. unfold spec_outcome in He.
  apply dict_get_is_Some in Hc as Ha. destruct Ha as [a Ha]. rewrite Ha in He.
  destruct (dict_get before k) as [b|].
  - destruct (decide (b = a)); [done|]. injection He as <-. eauto.
  - injection He as <-. auto.
Qed.

Lemma removed_events_shape after ks e :
  e ∈ removed_events after ks ->
  (e.1 ∉ dict_keys after) /\ e.1 ∈ ks /\ e.2 = lit "removed".
Proof.
  unfold removed_events. intros (k & Hk & He)%list_elem_of_omap.
  destruct (dict_contains after k) eqn:Hc; [done|].
  apply dict_contains_false in Hc. by injection He as <-.
Qed.

(** C8: the rows are the rows of each modified file, one file after the
    other within a commit and one commit after the other in traversal
    order; and for one pair of snapshots the rows for keys of [after]
    ([added] and [changed]) all come before the rows for keys only in
    [before] ([removed]). *)
Theorem rows_follow_traversal_order :
  (forall commits : list Commit,
     exists st,
       mine_repository commits = Ok st
       /\ rows st
          = flat_map
              (fun c => flat_map (fun f => rows_of (file_step c empty_state f))
                                 (modified_files c))
              commits)
  /\ (forall (c : Commit) (before after : dict) (st : MiningState),
        exists l1 l2 seen',
          classify c before after st
          = Ok {| rows := rows st ++ l1 ++ l2; seen := seen' |}
          /\ Forall (fun r : Row =>
                       row_key r ∈ dict_keys after
                       /\ (row_change r = lit "added"
                           \/ exists b a, row_change r = changed_text b a))
                    l1
          /\ Forall (fun r : Row =>
                       (row_key r ∉ dict_keys after)
                       /\ row_key r ∈ dict_keys before
                       /\ row_change r = lit "removed")
                    l2).
Proof.
  split.
  - intros commits. eexists. split; [apply mine_repository_ok|].
    rewrite record_commits_rows. simpl.
    induction commits as [|c cs IH]; [done|]. simpl. rewrite IH.
    f_equal. unfold commit_events. rewrite <- flat_map_fmap.
    induction (modified_files c) as [|f fs IHf]; [done|]. simpl.
    by rewrite file_step_rows, IHf.
  - intros c before after st.
    exists (map (mk_row c) (after_events before after (dict_keys after))),
      (map (mk_row c) (removed_events after (dict_keys before))),
      (seen (record_all c (pair_events before after) st)).
    split; [|split].
    + rewrite classify_rows. unfold pair_events. by rewrite map_app.
    + apply Forall_forall. intros r (e & -> & He)%list_elem_of_fmap.
      by apply after_events_shape in He.
    + apply Forall_forall. intros r (e & -> & He)%list_elem_of_fmap.
      by apply removed_events_shape in He.
Qed.

(** * Further properties of the parser *)

Lemma literal_split p s r : Re.literal p s = Some r -> s = p ++ r.
Proof.
  revert s. induction p as [|a p IH]; intros [|b s]; simpl; try done.
  - by intros [= <-].
  - by intros [= <-].
  - destruct (N.eqb_spec a b) as [->|]; [|done]. intros H. f_equal. by apply IH.
Qed.

Lemma literal_self p t : Re.literal p (p ++ t) = Some t.
Proof.
  induction p as [|a p IH]; simpl; [by destruct t|]. by rewrite N.eqb_refl.
Qed.

Lemma literal_app p s x t :
  Re.literal p s = Some x -> Re.literal p (s ++ t) = Some (x ++ t).
Proof. intros ->%literal_split. rewrite <- app_assoc. apply literal_self. Qed.

Lemma find_split p s b r : Re.find p s = Some (b, r) -> s = b ++ p ++ r.
Proof.
  revert b. induction s as [|c s IH]; intros b; cbn [Re.find].
  - destruct (Re.literal p []) eqn:E; [|done].
    intros [= <- <-]. exact (literal_split _ _ _ E).
  - destruct (Re.literal p (c :: s)) eqn:E.
    + intros [= <- <-]. exact (literal_split _ _ _ E).
    + destruct (Re.find p s) as [[b' r']|] eqn:F; [|done].
      intros [= <- <-]. simpl. f_equal. by apply IH.
Qed.

Lemma find_cons_None p c s : Re.find p (c :: s) = None -> Re.find p s = None.
Proof.
  cbn [Re.find]. destruct (Re.literal p (c :: s)); [done|].
  by destruct (Re.find p s) as [[? ?]|].
Qed.

Lemma find_app_Some p x s :
  is_Some (Re.find p s) -> is_Some (Re.find p (x ++ s)).
Proof.
  intros H. induction x as [|c x IH]; [done|].
  change ((c :: x) ++ s) with (c :: (x ++ s)). cbn [Re.find].
  destruct (Re.literal p (c :: x ++ s)); [by eexists|].
  destruct IH as [[b r] ->]. by eexists.
Qed.

(** The text before the first occurrence of a literal holds no occurrence. *)
Lemma find_before p s b r :
  p <> [] -> Re.find p s = Some (b, r) -> Re.find p b = None.
Proof.
  intros Hp. revert b. induction s as [|c s IH]; intros b; cbn [Re.find].
  - destruct (Re.literal p []) eqn:E; [|done].
    intros [= <- <-]. by destruct p.
  - destruct (Re.literal p (c :: s)) eqn:E.
    + intros [= <- <-]. by destruct p.
    + destruct (Re.find p s) as [[b' r']|] eqn:F; [|done].
      intros [= <- <-]. cbn [Re.find]. rewrite (IH b' eq_refl).
      destruct (Re.literal p (c :: b')) as [x|] eqn:E'; [|done].
      apply find_split in F as ->.
      apply (literal_app _ _ _ (p ++ r')) in E'. simpl in E'. congruence.
Qed.

Lemma dependency_here_tags s inner rest :
  Re.dependency_here s = Some (inner, rest) ->
  is_Some (Re.find (lit "<dependency>") s)
  /\ is_Some (Re.find (lit "</dependency>") s)
  /\ Re.find (lit "</dependency>") inner = None.
Proof.
  unfold Re.dependency_here.
  destruct (Re.literal (lit "<dependency>") s) as [r|] eqn:E; [|done].
  intros F. split; [|split].
  - destruct s; cbn [Re.find]; rewrite E; by eexists.
  - apply literal_split in E as ->. apply find_app_Some. by eexists.
  - by eapply find_before.
Qed.

Lemma findall_fuel_elem n s b :
  b ∈ Re.findall_fuel n s ->
  exists s' rest, Re.dependency_here s' = Some (b, rest).
Proof.
  revert s. induction n as [|n IH]; intros s; simpl.
  - by intros ?%elem_of_nil.
  - destruct (Re.dependency_here s) as [[inner rest]|] eqn:E.
    + intros [->|H]%elem_of_cons; [eauto | eauto].
    + destruct s as [|c s]; [by intros ?%elem_of_nil | eauto].
Qed.

Lemma findall_fuel_no_tag n s :
  Re.find (lit "<dependency>") s = None
  \/ Re.find (lit "</dependency>") s = None ->
  Re.findall_fuel n s = [].
Proof.
  revert s. induction n as [|n IH]; intros s H; simpl; [done|].
  destruct (Re.dependency_here s) as [[inner rest]|] eqn:E.
  - apply dependency_here_tags in E as ([? Ho] & [? Hc] & _).
    destruct H; congruence.
  - destruct s as [|c s]; [done|]. apply IH.
    destruct H as [H|H]; [left|right]; by eapply find_cons_None.
Qed.

(** X1: a manifest without an opening [<dependency>] tag, or without a
    closing [</dependency>] tag (a text cut off inside its block), has the
    empty snapshot. *)
Theorem no_complete_block_no_entry (text : str) :
  Re.find (lit "<dependency>") text = None
  \/ Re.find (lit "</dependency>") text = None ->
  _parse_dependency_blocks (Some text) = Ok [].
Proof.
  intros H. rewrite parse_ok. simpl. unfold Re.findall_dependency.
  by rewrite findall_fuel_no_tag.
Qed.

Lemma no_complete_block_no_entry_witness :
  _parse_dependency_blocks (Some pom_truncated) = Ok [].
Proof.
  apply (no_complete_block_no_entry pom_truncated).
  right. vm_compute. reflexivity.
Defined.

(** X2: a matched block never reaches past a closing tag: no block that
    [re.findall] returns contains [</dependency>]. *)
Theorem blocks_hold_no_closing_tag (text b : str) :
  b ∈ Re.findall_dependency text ->
  Re.find (lit "</dependency>") b = None.
Proof.
  intros (s' & rest & H)%findall_fuel_elem.
  by apply dependency_here_tags in H as (_ & _ & ?).
Qed.

Lemma blocks_hold_no_closing_tag_witness :
  Re.find (lit "</dependency>") block_lib_2 = None.
Proof.
  apply (blocks_hold_no_closing_tag pom_repeated_key block_lib_2).
  assert (Re.findall_dependency pom_repeated_key
          = [block_lib_1; block_lib_2; block_core_3]) as ->
    by (vm_compute; reflexivity).
  right. left.
Defined.

Lemma dict_setitem_length d k v :
  length (dict_setitem d k v) <= S (length d).
Proof.
  induction d as [|[k0 v0] d IH]; simpl; [done|].
  destruct (decide (k0 = k)); simpl; lia.
Qed.

Lemma add_entries_length blocks deps :
  length (foldl add_entry deps blocks) <= length deps + length blocks.
Proof.
  revert deps. induction blocks as [|b bs IH]; intros deps; simpl; [lia|].
  etrans; [apply IH|]. unfold add_entry.
  destruct (block_entry b) as [[k v]|]; [|lia].
  pose proof (dict_setitem_length deps k (PyStr v)). lia.
Qed.

(** X3: the snapshot of a text has pairwise distinct keys, at most one
    entry per matched block, and every key holds a colon and no [<]. *)
Theorem snapshot_shape (text : str) :
  exists d,
    _parse_dependency_blocks (Some text) = Ok d
    /\ NoDup (dict_keys d)
    /\ length d <= length (Re.findall_dependency text)
    /\ forall k, k ∈ dict_keys d -> 58%N ∈ k /\ 60%N ∉ k.
Proof.
  exists (snapshot (Some text)). split; [apply parse_ok|].
  split; [apply snapshot_NoDup|]. split.
  - simpl. pose proof (add_entries_length (Re.findall_dependency text) []).
    simpl in *. lia.
  - intros k (b & g & a & _ & Hg & Ha & ->)%snapshot_key.
    apply search_group in Hg as [_ Hg]. apply search_group in Ha as [_ Ha].
    split.
    + apply elem_of_app. right. left.
    + intros [H|H]%elem_of_app.
      * by apply strip_elem in H.
      * apply elem_of_cons in H as [H|H]; [done|]. by apply strip_elem in H.
Qed.

(** * Further properties of the mining loop *)

Lemma pair_events_same_mapping before after :
  (forall k, dict_get before k = dict_get after k) ->
  pair_events before after = [].
Proof.
  intros H. apply elem_of_nil_inv. intros e He. apply pair_events_elem in He.
  unfold spec_outcome in He. rewrite (H e.1) in He.
  destruct (dict_get after e.1); [|done].
  by rewrite decide_True in He.
Qed.

(** X4: a modified [pom.xml] whose texts before and after the commit parse
    to the same mapping (every key has the same version, or none, in both
    snapshots, whatever the order of the entries) appends no row and does
    not count the commit: a change of layout, of the order of the
    declarations or of anything outside the dependency blocks is not
    reported. *)
Theorem same_snapshot_no_rows (c : Commit) (f : ModifiedFile)
    (st : MiningState) (before after : dict) :
  _parse_dependency_blocks (source_code_before f) = Ok before ->
  _parse_dependency_blocks (source_code f) = Ok after ->
  (forall k, dict_get before k = dict_get after k) ->
  file_step c st f = Ok st.
Proof.
  rewrite !parse_ok. intros [= <-] [= <-] H.
  rewrite file_step_ok. unfold file_events.
  destruct (decide _); [|done]. by rewrite pair_events_same_mapping.
Qed.

Lemma same_snapshot_no_rows_witness :
  file_step commit_c1 empty_state file_reordered = Ok empty_state.
Proof.
  apply (same_snapshot_no_rows commit_c1 file_reordered empty_state
           [(lit "org.a:lib", PyStr (lit "1.0"));
            (lit "org.a:core", PyStr (lit "3.0"))]
           [(lit "org.a:core", PyStr (lit "3.0"));
            (lit "org.a:lib", PyStr (lit "1.0"))]).
  - vm_compute. reflexivity.
  - vm_compute. reflexivity.
  - intros k. cbn [dict_get].
    destruct (decide (lit "org.a:lib" = k)) as [E1|E1];
      destruct (decide (lit "org.a:core" = k)) as [E2|E2];
      try reflexivity.
    rewrite <- E2 in E1. discriminate E1.
Defined.

Example same_snapshot_after_reformatting :
  file_step commit_c1 empty_state file_reformatted = Ok empty_state.
Proof. by vm_compute. Qed.

Lemma snapshot_falsy o : truthy o = false -> snapshot o = [].
Proof. by destruct o as [[|c s]|]. Qed.

Lemma after_events_all_added after ks :
  ks ⊆ dict_keys after ->
  after_events [] after ks = map (fun k => (k, lit "added")) ks.
Proof.
  induction ks as [|k ks IH]; intros Hks; [done|].
  assert (k ∈ dict_keys after) as Hk by (apply Hks; left).
  rewrite after_events_cons, IH by (intros x Hx; apply Hks; by right).
  simpl. f_equal. unfold after_events, spec_outcome. simpl.
  rewrite (proj2 (dict_contains_true after k) Hk).
  apply dict_get_is_Some in Hk as [a ->]. done.
Qed.

Lemma removed_events_all_removed ks :
  removed_events [] ks = map (fun k => (k, lit "removed")) ks.
Proof.
  unfold removed_events. induction ks as [|k ks IH]; [done|].
  rewrite (omap_pair_cons
             (fun k => if dict_contains [] k then None
                       else Some (lit "removed"))).
  assert (dict_contains [] k = false) as -> by done. by rewrite IH.
Qed.

Lemma after_events_nil before : after_events before [] [] = [].
Proof. done. Qed.

(** X5: when [pom.xml] has no text before the commit (the file is new or
    was empty), the loop appends one [added] row per key of the new
    snapshot, in the snapshot's insertion order, and nothing else; the
    commit is counted unless the new snapshot is empty. *)
Theorem new_file_rows (c : Commit) (f : ModifiedFile) (st : MiningState)
    (after : dict) :
  filename f = lit "pom.xml" ->
  truthy (source_code_before f) = false ->
  _parse_dependency_blocks (source_code f) = Ok after ->
  file_step c st f
  = Ok {| rows := rows st
                  ++ map (fun k => mk_row c (k, lit "added")) (dict_keys after);
          seen := match after with
                  | [] => seen st
                  | _ :: _ => {[hash c]} ∪ seen st
                  end |}.
Proof.
  intros Hname Hb Ha. rewrite parse_ok in Ha. injection Ha as <-.
  rewrite file_step_ok. unfold file_events.
  rewrite decide_True by done. rewrite (snapshot_falsy _ Hb).
  unfold pair_events. rewrite after_events_all_added by done.
  change (removed_events _ (dict_keys [])) with (@nil (str * str)).
  rewrite app_nil_r. f_equal. apply mining_state_eq.
  - by rewrite record_all_rows, map_map.
  - rewrite record_all_seen. unfold dict_keys.
    by destruct (snapshot (source_code f)).
Qed.

Lemma new_file_rows_witness :
  file_step commit_c1 empty_state file_added
  = Ok {| rows := [mk_row commit_c1 (lit "org.a:lib", lit "added");
                   mk_row commit_c1 (lit "org.a:core", lit "added")];
          seen := {[hash commit_c1]} ∪ ∅ |}.
Proof.
  apply (new_file_rows commit_c1 file_added empty_state
           [(lit "org.a:lib", PyStr (lit "2.0"));
            (lit "org.a:core", PyStr (lit "3.0"))]).
  - reflexivity.
  - reflexivity.
  - vm_compute. reflexivity.
Defined.

(** X6: when [pom.xml] has no text after the commit (the file is deleted
    or emptied), the loop appends one [removed] row per key of the old
    snapshot, in the snapshot's insertion order, and nothing else. *)
Theorem deleted_file_rows (c : Commit) (f : ModifiedFile) (st : MiningState)
    (before : dict) :
  filename f = lit "pom.xml" ->
  truthy (source_code f) = false ->
  _parse_dependency_blocks (source_code_before f) = Ok before ->
  file_step c st f
  = Ok {| rows := rows st
                  ++ map (fun k => mk_row c (k, lit "removed"))
                         (dict_keys before);
          seen := match before with
                  | [] => seen st
                  | _ :: _ => {[hash c]} ∪ seen st
                  end |}.
Proof.
  intros Hname Ha Hb. rewrite parse_ok in Hb. injection Hb as <-.
  rewrite file_step_ok. unfold file_events.
  rewrite decide_True by done. rewrite (snapshot_falsy _ Ha).
  unfold pair_events. rewrite after_events_nil, removed_events_all_removed.
  simpl. f_equal. apply mining_state_eq.
  - by rewrite record_all_rows, map_map.
  - rewrite record_all_seen. unfold dict_keys.
    by destruct (snapshot (source_code_before f)).
Qed.

Lemma deleted_file_rows_witness :
  file_step commit_c1 empty_state file_deleted
  = Ok {| rows := [mk_row commit_c1 (lit "org.a:lib", lit "removed");
                   mk_row commit_c1 (lit "org.a:core", lit "removed")];
          seen := {[hash commit_c1]} ∪ ∅ |}.
Proof.
  apply (deleted_file_rows commit_c1 file_deleted empty_state
           [(lit "org.a:lib", PyStr (lit "2.0"));
            (lit "org.a:core", PyStr (lit "3.0"))]).
  - reflexivity.
  - reflexivity.
  - vm_compute. reflexivity.
Defined.

(** X7: for a modified [pom.xml], the parser and the two loops together
    append, for every key, exactly the row the rule gives on the two parsed
    snapshots, or none: the snapshots the parser builds always have
    distinct keys. *)
Theorem parsed_file_one_outcome_per_key (c : Commit) (f : ModifiedFile)
    (st : MiningState) :
  filename f = lit "pom.xml" ->
  exists before after new seen',
    _parse_dependency_blocks (source_code_before f) = Ok before
    /\ _parse_dependency_blocks (source_code f) = Ok after
    /\ file_step c st f = Ok {| rows := rows st ++ new; seen := seen' |}
    /\ forall k,
         filter (fun r : Row => row_key r = k) new
         = match spec_outcome before after k with
           | Some change => [(hash c, author_date c, author_name c, k, change)]
           | None => []
           end.
Proof.
  intros Hname.
  exists (snapshot (source_code_before f)), (snapshot (source_code f)).
  do 2 eexists. rewrite !parse_ok. split; [done|]. split; [done|]. split.
  - rewrite file_step_ok. f_equal. apply mining_state_eq; [|done].
    apply record_all_rows.
  - intros k. unfold file_events. rewrite decide_True by done.
    rewrite filter_key_rows, filter_key_pair_events by apply snapshot_NoDup.
    by destruct (spec_outcome _ _ k).
Qed.

Lemma parsed_file_one_outcome_per_key_witness :
  exists before after new seen',
    _parse_dependency_blocks (source_code_before file_deleted) = Ok before
    /\ _parse_dependency_blocks (source_code file_deleted) = Ok after
    /\ file_step commit_c1 empty_state file_deleted
       = Ok {| rows := rows empty_state ++ new; seen := seen' |}
    /\ forall k,
         filter (fun r : Row => row_key r = k) new
         = match spec_outcome before after k with
           | Some change =>
               [(hash commit_c1, author_date commit_c1, author_name commit_c1,
                 k, change)]
           | None => []
           end.
Proof.
  apply (parsed_file_one_outcome_per_key commit_c1 file_deleted empty_state).
  reflexivity.
Defined.

Lemma record_commits_app st cs1 cs2 :
  record_commits st (cs1 ++ cs2) = record_commits (record_commits st cs1) cs2.
Proof. apply foldl_app. Qed.

Lemma record_all_seen_from c es st :
  seen (record_all c es st) = seen (record_all c es empty_state) ∪ seen st.
Proof.
  rewrite !record_all_seen. destruct es; simpl.
  - by rewrite (left_id_L ∅ (∪)).
  - by rewrite (right_id_L ∅ (∪)).
Qed.

Lemma record_commits_seen_from cs st :
  seen (record_commits st cs)
  = seen (record_commits empty_state cs) ∪ seen st.
Proof.
  revert st. induction cs as [|c cs IH]; intros st.
  - simpl. by rewrite (left_id_L ∅ (∪)).
  - unfold record_commits in *. simpl.
    rewrite (IH (record_all c (commit_events c) st)).
    rewrite (IH (record_all c (commit_events c) empty_state)).
    rewrite (record_all_seen_from c _ st). by rewrite (assoc_L (∪)).
Qed.

(** X8: mining a history in two parts gives the parts' results side by
    side: the rows of the whole history are the rows of the first part
    followed by the rows of the second, and a commit is counted for the
    whole history exactly when it is counted for one of the parts. *)
Theorem mining_splits_over_histories (cs1 cs2 : list Commit) :
  exists st1 st2 st,
    mine_repository cs1 = Ok st1
    /\ mine_repository cs2 = Ok st2
    /\ mine_repository (cs1 ++ cs2) = Ok st
    /\ rows st = rows st1 ++ rows st2
    /\ seen st = seen st1 ∪ seen st2.
Proof.
  do 3 eexists. rewrite !mine_repository_ok.
  split; [done|]. split; [done|]. split; [done|].
  rewrite record_commits_app. split.
  - by rewrite !record_commits_rows.
  - rewrite record_commits_seen_from. apply (comm_L (∪)).
Qed.

(** X9: every row carries the hash, the date and the author of one and
    the same commit of the history. *)
Theorem rows_carry_commit_metadata (commits : list Commit) :
  exists st,
    mine_repository commits = Ok st
    /\ forall r, r ∈ rows st ->
         exists c, c ∈ commits
           /\ r = (hash c, author_date c, author_name c,
                   row_key r, row_change r).
Proof.
  eexists. split; [apply mine_repository_ok|]. intros r Hr.
  apply mined_row_origin in Hr as (c & f & e & Hc & _ & _ & -> & _).
  by exists c.
Qed.

Lemma seen_within_commits cs h :
  h ∈ seen (record_commits empty_state cs) -> h ∈ hash <$> cs.
Proof.
  intros Hh. apply (record_commits_invariant cs empty_state
                      empty_state_invariant h) in Hh as (r & Hr & <-).
  apply mined_row_origin in Hr as (c & f & e & Hc & _ & _ & -> & _).
  apply list_elem_of_fmap. by exists c.
Qed.

(** X10: the number of commits with dependency changes that the run
    reports, [len(seen)], is the number of distinct commit hashes among the
    rows; it is at most the number of rows and at most the number of commits
    of the history. *)
Theorem reported_count (commits : list Commit) :
  exists st,
    mine_repository commits = Ok st
    /\ size (seen st) = length (remove_dups (row_hash <$> rows st))
    /\ size (seen st) <= length (rows st)
    /\ size (seen st) <= length commits.
Proof.
  eexists. split; [apply mine_repository_ok|].
  set (st := record_commits _ commits).
  pose proof (record_commits_invariant commits empty_state
                empty_state_invariant) as Hinv.
  change (forall h, h ∈ seen st <-> exists r, r ∈ rows st /\ row_hash r = h)
    in Hinv.
  assert (elements (seen st) ≡ₚ remove_dups (row_hash <$> rows st)) as Hperm.
  { apply NoDup_Permutation;
      [apply NoDup_elements | apply NoDup_remove_dups |].
    intros h. rewrite elem_of_elements, elem_of_remove_dups, (Hinv h).
    rewrite list_elem_of_fmap. split; intros (r & ? & ?); by exists r. }
  assert (size (seen st) = length (remove_dups (row_hash <$> rows st))) as Hsize
    by (unfold size, set_size; simpl; by rewrite Hperm).
  split; [done|]. split.
  - rewrite Hsize, <- (length_fmap row_hash (rows st)).
    apply submseteq_length, NoDup_submseteq; [apply NoDup_remove_dups|].
    intros h. by rewrite elem_of_remove_dups.
  - unfold size, set_size. simpl.
    rewrite <- (length_fmap hash commits).
    apply submseteq_length, NoDup_submseteq; [apply NoDup_elements|].
    intros h Hh%elem_of_elements. by apply seen_within_commits.
Qed.

(** * The parser on manifests in the usual layout *)

Lemma clash_literal p x s : clash p x = true -> Re.literal p (x ++ s) = None.
Proof.
  revert x. induction p as [|a p IH]; intros [|b x]; simpl; try done.
  destruct (a =? b)%N; [apply IH | done].
Qed.

Lemma clash_app p x y : clash p x = true -> clash p (x ++ y) = true.
Proof.
  revert x. induction p as [|a p IH]; intros [|b x]; simpl; try done.
  destruct (a =? b)%N; [apply IH | done].
Qed.

Lemma no_start_app p x y :
  no_start p x = true -> no_start p y = true -> no_start p (x ++ y) = true.
Proof.
  intros Hx Hy. induction x as [|c x IH]; [done|].
  simpl in *. apply andb_prop in Hx as [Hc Hx].
  apply andb_true_intro. split; [|by apply IH].
  by apply (clash_app p (c :: x) y).
Qed.

(** A text without [<] gives no start to a literal that begins with [<]. *)
Lemma no_start_plain p x : 60%N ∉ x -> no_start (60%N :: p) x = true.
Proof.
  induction x as [|c x IH]; intros H; [done|].
  apply not_elem_of_cons in H as [Hc Hx]. cbn [no_start clash].
  destruct (N.eqb_spec 60 c) as [E|E]; [done|]. by apply IH.
Qed.

Lemma find_skip p x s :
  no_start p x = true ->
  Re.find p (x ++ s)
  = match Re.find p s with
    | Some (b, r) => Some (x ++ b, r)
    | None => None
    end.
Proof.
  induction x as [|c x IH]; intros H.
  - simpl. by destruct (Re.find p s) as [[b r]|].
  - simpl in H. apply andb_prop in H as [Hc Hx].
    pose proof (clash_literal p (c :: x) s Hc) as Hl.
    change ((c :: x) ++ s) with (c :: (x ++ s)) in Hl |- *. cbn [Re.find].
    rewrite Hl, (IH Hx).
    by destruct (Re.find p s) as [[b r]|].
Qed.

Lemma search_skip tag x s :
  no_start (open_tag tag) x = true ->
  Re.search tag (x ++ s) = Re.search tag s.
Proof.
  induction x as [|c x IH]; intros H; [done|].
  simpl in H. apply andb_prop in H as [Hc Hx].
  pose proof (clash_literal (open_tag tag) (c :: x) s Hc) as Hl.
  change ((c :: x) ++ s) with (c :: (x ++ s)) in Hl |- *. cbn [Re.search].
  unfold Re.tag_here at 1.
  change (lit "<" ++ lit tag ++ lit ">") with (open_tag tag).
  rewrite Hl. by apply IH.
Qed.

Lemma take_while_plain x t :
  60%N ∉ x -> take_while Re.not_lt (x ++ 60%N :: t) = x.
Proof.
  induction x as [|c x IH]; intros H; [done|].
  apply not_elem_of_cons in H as [Hc Hx].
  change ((c :: x) ++ 60%N :: t) with (c :: (x ++ 60%N :: t)).
  cbn [take_while drop_while]. unfold Re.not_lt at 1.
  destruct (N.eqb_spec c 60) as [E|E]; [done|]. cbn [negb]. by rewrite IH.
Qed.

Lemma drop_while_plain x t :
  60%N ∉ x -> drop_while Re.not_lt (x ++ 60%N :: t) = 60%N :: t.
Proof.
  induction x as [|c x IH]; intros H; [done|].
  apply not_elem_of_cons in H as [Hc Hx].
  change ((c :: x) ++ 60%N :: t) with (c :: (x ++ 60%N :: t)).
  cbn [take_while drop_while]. unfold Re.not_lt at 1.
  destruct (N.eqb_spec c 60) as [E|E]; [done|]. cbn [negb]. by rewrite IH.
Qed.

(** The search matches an element of its tag that stands first. *)
Lemma search_element tag body s :
  is_value body ->
  Re.search tag (element tag body ++ s) = Some {| Re.group1 := body |}.
Proof.
  intros [Hne Hlt].
  assert (Re.tag_here tag (element tag body ++ s)
          = Some {| Re.group1 := body |}) as H.
  { unfold Re.tag_here, element.
    change (lit "<" ++ lit tag ++ lit ">") with (open_tag tag).
    change (lit "</" ++ lit tag ++ lit ">") with (close_tag tag).
    rewrite <- !app_assoc, literal_self.
    change (close_tag tag ++ s) with (60%N :: (47%N :: lit tag ++ lit ">") ++ s).
    rewrite take_while_plain, drop_while_plain by done.
    change (60%N :: (47%N :: lit tag ++ lit ">") ++ s)
      with (close_tag tag ++ s).
    rewrite literal_self. by destruct body. }
  destruct (element tag body ++ s); cbn [Re.search]; by rewrite H.
Qed.

Lemma no_start_element p tag body :
  no_start (60%N :: p) (open_tag tag) = true ->
  no_start (60%N :: p) (close_tag tag) = true ->
  60%N ∉ body ->
  no_start (60%N :: p) (element tag body) = true.
Proof.
  intros Ho Hc Hb. unfold element.
  apply no_start_app; [done|]. apply no_start_app; [|done].
  by apply no_start_plain.
Qed.

Lemma block_entry_laid_out d :
  well_laid_out d ->
  block_entry (block_of d)
  = Some (strip (group_text d) ++ lit ":" ++ strip (artifact_text d),
          strip (version_text d)).
Proof.
  intros (Hl & H1 & H2 & Hg & Ha & Hv & _).
  pose proof (proj2 Hg) as Hg'. pose proof (proj2 Ha) as Ha'.
  unfold block_entry, block_of.
  assert (Re.search "groupId" (lead d ++ element "groupId" (group_text d)
            ++ gap1 d ++ element "artifactId" (artifact_text d)
            ++ gap2 d ++ element "version" (version_text d) ++ trail d)
          = Some {| Re.group1 := group_text d |}) as ->.
  { rewrite search_skip by (by apply (no_start_plain _ (lead d))).
    by apply search_element. }
  assert (Re.search "artifactId" (lead d ++ element "groupId" (group_text d)
            ++ gap1 d ++ element "artifactId" (artifact_text d)
            ++ gap2 d ++ element "version" (version_text d) ++ trail d)
          = Some {| Re.group1 := artifact_text d |}) as ->.
  { rewrite search_skip by (by apply (no_start_plain _ (lead d))).
    rewrite search_skip by (by apply (no_start_element _ "groupId")).
    rewrite search_skip by (by apply (no_start_plain _ (gap1 d))).
    by apply search_element. }
  assert (Re.search "version" (lead d ++ element "groupId" (group_text d)
            ++ gap1 d ++ element "artifactId" (artifact_text d)
            ++ gap2 d ++ element "version" (version_text d) ++ trail d)
          = Some {| Re.group1 := version_text d |}) as ->.
  { rewrite search_skip by (by apply (no_start_plain _ (lead d))).
    rewrite search_skip by (by apply (no_start_element _ "groupId")).
    rewrite search_skip by (by apply (no_start_plain _ (gap1 d))).
    rewrite search_skip by (by apply (no_start_element _ "artifactId")).
    rewrite search_skip by (by apply (no_start_plain _ (gap2 d))).
    by apply search_element. }
  done.
Qed.

Lemma block_of_no_closing_tag d :
  well_laid_out d -> Re.find (lit "</dependency>") (block_of d) = None.
Proof.
  intros (Hl & H1 & H2 & [_ Hg] & [_ Ha] & [_ Hv] & Ht). unfold block_of.
  rewrite find_skip by (by apply (no_start_plain _ (lead d))).
  rewrite find_skip by (by apply (no_start_element _ "groupId")).
  rewrite find_skip by (by apply (no_start_plain _ (gap1 d))).
  rewrite find_skip by (by apply (no_start_element _ "artifactId")).
  rewrite find_skip by (by apply (no_start_plain _ (gap2 d))).
  rewrite find_skip by (by apply (no_start_element _ "version")).
  by rewrite Ht.
Qed.

(** X11: for a block laid out as group, artifact, version, whatever
    follows the version (a scope, exclusions with identifiers of their
    own), the loop body stores the trimmed version under the key
    [group:artifact] of the trimmed identifiers. *)
Theorem laid_out_block_is_stored (deps : dict) (d : Declaration) :
  well_laid_out d ->
  parse_block deps (block_of d)
  = Ok (dict_setitem deps (entry_of d).1 (entry_of d).2).
Proof.
  intros H. rewrite parse_block_ok. unfold add_entry.
  by rewrite (block_entry_laid_out d H).
Qed.

Lemma well_laid_out_junit : well_laid_out declaration_junit.
Proof.
  unfold well_laid_out, is_value.
  repeat split; apply (bool_decide_unpack _); vm_compute; exact I.
Defined.

Lemma laid_out_block_is_stored_witness :
  parse_block [] (block_of declaration_junit)
  = Ok [(lit "junit:junit", PyStr (lit "4.13"))].
Proof.
  apply (laid_out_block_is_stored [] declaration_junit).
  apply well_laid_out_junit.
Defined.

(** A literal that failed inside [s] still fails when a [<] follows [s],
    as long as the rest of the literal holds no [<]. *)
Lemma literal_None_then_lt q s t :
  60%N ∉ q -> Re.literal q s = None -> Re.literal q (s ++ 60%N :: t) = None.
Proof.
  revert s. induction q as [|a q IH]; intros [|b s] Hq; simpl; try done.
  - intros _. apply not_elem_of_cons in Hq as [Ha _].
    destruct (N.eqb_spec a 60) as [E|E]; [congruence|done].
  - apply not_elem_of_cons in Hq as [_ Hq].
    destruct (a =? b)%N; [by apply IH | done].
Qed.

Lemma literal_None_border p s t :
  60%N ∉ p -> Re.literal (60%N :: p) (s ++ 60%N :: t) = None
              \/ s = [] \/ is_Some (Re.literal (60%N :: p) s).
Proof.
  intros Hp. destruct s as [|b s]; [auto|].
  destruct (Re.literal (60%N :: p) (b :: s)) as [r|] eqn:E; [eauto|].
  left. change ((b :: s) ++ 60%N :: t) with (b :: (s ++ 60%N :: t)).
  cbn [Re.literal] in *. destruct (60 =? b)%N; [|done].
  by apply literal_None_then_lt.
Qed.

Lemma find_None_literal p c s :
  Re.find p (c :: s) = None -> Re.literal p (c :: s) = None.
Proof. cbn [Re.find]. by destruct (Re.literal p (c :: s)). Qed.

(** The first occurrence of a literal that begins with its only [<]. *)
Lemma find_border p b t :
  60%N ∉ p -> Re.find (60%N :: p) b = None ->
  Re.find (60%N :: p) (b ++ (60%N :: p) ++ t) = Some (b, t).
Proof.
  intros Hp. induction b as [|c b IH]; intros Hb.
  - change ([] ++ (60%N :: p) ++ t) with ((60%N :: p) ++ t).
    destruct ((60%N :: p) ++ t) eqn:E; [done|]. rewrite <- E.
    unfold Re.find. rewrite E. fold Re.find. rewrite <- E.
    by rewrite literal_self.
  - pose proof (find_None_literal _ _ _ Hb) as Hl.
    apply find_cons_None in Hb. specialize (IH Hb).
    change ((c :: b) ++ (60%N :: p) ++ t)
      with (c :: (b ++ (60%N :: p) ++ t)).
    cbn [Re.find]. rewrite IH.
    destruct (literal_None_border p (c :: b) (p ++ t) Hp) as [H|[H|[r H]]];
      [|done|congruence].
    change ((c :: b) ++ 60%N :: p ++ t)
      with (c :: (b ++ (60%N :: p) ++ t)) in H.
    by rewrite H.
Qed.

Lemma findall_block b t :
  Re.find (lit "</dependency>") b = None ->
  Re.findall_dependency (wrap_block b ++ t) = b :: Re.findall_dependency t.
Proof.
  intros Hb. rewrite findall_dependency_unfold.
  unfold Re.dependency_here, wrap_block.
  rewrite <- !app_assoc, literal_self.
  change (lit "</dependency>") with (60%N :: lit "/dependency>") in *.
  rewrite find_border; [done | | done].
  apply (bool_decide_unpack _). by vm_compute.
Qed.

Lemma findall_skip_text pre t :
  Re.find (lit "<dependency>") pre = None ->
  Re.findall_dependency (pre ++ 60%N :: t)
  = Re.findall_dependency (60%N :: t).
Proof.
  induction pre as [|c pre IH]; intros Hpre; [done|].
  pose proof (find_None_literal _ _ _ Hpre) as Hl.
  apply find_cons_None in Hpre. rewrite <- (IH Hpre).
  change ((c :: pre) ++ 60%N :: t) with (c :: (pre ++ 60%N :: t)).
  rewrite (findall_dependency_unfold (c :: _)).
  unfold Re.dependency_here.
  change (lit "<dependency>") with (60%N :: lit "dependency>") in *.
  destruct (literal_None_border (lit "dependency>") (c :: pre) t)
    as [H|[H|[r H]]]; [by apply (bool_decide_unpack _); vm_compute | |done|congruence].
  change ((c :: pre) ++ 60%N :: t) with (c :: (pre ++ 60%N :: t)) in H.
  by rewrite H.
Qed.

Lemma findall_manifest items rest :
  Forall (fun it : str * str =>
            Re.find (lit "<dependency>") it.1 = None
            /\ Re.find (lit "</dependency>") it.2 = None) items ->
  Re.find (lit "<dependency>") rest = None ->
  Re.findall_dependency (manifest items rest) = items.*2.
Proof.
  intros Hitems Hrest. unfold manifest.
  induction Hitems as [|[pre b] items [Hpre Hb] _ IH]; simpl.
  - unfold Re.findall_dependency. by apply findall_fuel_no_tag; left.
  - rewrite <- !app_assoc.
    change (wrap_block b ++ ?x) with (60%N :: (lit "dependency>" ++ b ++ lit "</dependency>") ++ x).
    rewrite findall_skip_text by done.
    change (60%N :: (lit "dependency>" ++ b ++ lit "</dependency>") ++ ?x)
      with (wrap_block b ++ x).
    rewrite findall_block by done. by rewrite IH.
Qed.

(** X12: [re.findall] recovers the blocks of a manifest: when the text
    before each block and after the last one holds no [<dependency>] and
    no block holds [</dependency>], the matches are exactly the blocks, in
    document order. *)
Theorem findall_recovers_blocks (items : list (str * str)) (rest : str) :
  Forall (fun it : str * str =>
            Re.find (lit "<dependency>") it.1 = None
            /\ Re.find (lit "</dependency>") it.2 = None) items ->
  Re.find (lit "<dependency>") rest = None ->
  Re.findall (Some (manifest items rest)) = Ok (items.*2).
Proof. intros H1 H2. simpl. by rewrite findall_manifest. Qed.

Lemma findall_recovers_blocks_witness :
  Re.findall (Some (manifest [(lit "<project><dependencies>", block_lib_1);
                              (lit "<!-- core -->", block_core_3)]
                             (lit "</dependencies></project>")))
  = Ok [block_lib_1; block_core_3].
Proof.
  apply (findall_recovers_blocks
           [(lit "<project><dependencies>", block_lib_1);
            (lit "<!-- core -->", block_core_3)]
           (lit "</dependencies></project>")).
  - repeat constructor; vm_compute; reflexivity.
  - vm_compute. reflexivity.
Defined.

Lemma add_entries_laid_out (ds : list Declaration) (deps : dict) :
  Forall well_laid_out ds ->
  foldl add_entry deps (block_of <$> ds)
  = foldl (fun acc d => dict_setitem acc (entry_of d).1 (entry_of d).2)
          deps ds.
Proof.
  intros H. revert deps. induction H as [|d ds Hd _ IH]; intros deps; [done|].
  simpl. rewrite <- IH. f_equal. unfold add_entry.
  by rewrite (block_entry_laid_out d Hd).
Qed.

(** X13: on a manifest whose blocks are laid out as group, artifact,
    version, with no [<dependency>] in the text around the blocks, the
    parser returns the declared entries, stored one after the other in
    document order (a repeated key keeps its place and takes the later
    version). *)
Theorem parser_reads_laid_out_manifest (items : list (str * Declaration))
    (rest : str) :
  Forall (fun it : str * Declaration =>
            Re.find (lit "<dependency>") it.1 = None
            /\ well_laid_out it.2) items ->
  Re.find (lit "<dependency>") rest = None ->
  _parse_dependency_blocks
    (Some (manifest (prod_map id block_of <$> items) rest))
  = Ok (foldl (fun acc d => dict_setitem acc (entry_of d).1 (entry_of d).2)
              [] (items.*2)).
Proof.
  intros Hitems Hrest. rewrite parse_ok. simpl. f_equal.
  rewrite findall_manifest; [|clear -Hitems|done].
  - rewrite <- list_fmap_compose.
    rewrite <- add_entries_laid_out.
    + by rewrite <- list_fmap_compose.
    + apply Forall_fmap. eapply Forall_impl; [exact Hitems|].
      by intros [pre d] [_ ?].
  - apply Forall_fmap. eapply Forall_impl; [exact Hitems|].
    intros [pre d] [Hpre Hd]. simpl. split; [done|].
    by apply block_of_no_closing_tag.
Qed.

Lemma parser_reads_laid_out_manifest_witness :
  _parse_dependency_blocks
    (Some (manifest
             (prod_map id block_of
                <$> [(lit "<project><dependencies>", declaration_lib);
                     (lit "<!-- tests -->", declaration_junit)])
             (lit "</dependencies></project>")))
  = Ok [(lit "org.a:lib", PyStr (lit "1.0"));
        (lit "junit:junit", PyStr (lit "4.13"))].
Proof.
  apply (parser_reads_laid_out_manifest
           [(lit "<project><dependencies>", declaration_lib);
            (lit "<!-- tests -->", declaration_junit)]
           (lit "</dependencies></project>")).
  - repeat constructor;
      try (apply (bool_decide_unpack _); vm_compute; exact I).
  - vm_compute. reflexivity.
Defined.

(** * The strict parser *)

Lemma for_each_app {A S} (xs ys : list A) (st : S) body :
  for_each (xs ++ ys) st body
  = (let! st' := for_each xs st body in for_each ys st' body).
Proof.
  revert st. induction xs as [|x xs IH]; intros st; [done|].
  simpl. destruct (body st x); simpl; [apply IH | done].
Qed.

Section StrictProperties.

Variable Element : Type.
Variable parse_error : Type.
Variable fromstring : str -> parse_error + Element.
Variable default_namespace : Element -> option str.
Variable findall : Element -> str -> option (list (str * str)) -> list Element.
Variable find : Element -> str -> option (list (str * str)) -> option Element.
Variable text : Element -> option str.

Local Abbreviation parse :=
  (_parse_pom_dependencies Element parse_error fromstring default_namespace
     findall find text).
Local Abbreviation elements := (strict_elements Element default_namespace findall).
Local Abbreviation texts := (has_texts Element default_namespace find text).
Local Abbreviation key_of := (strict_key Element default_namespace find text).
Local Abbreviation version_of :=
  (strict_version Element default_namespace find text).
Local Abbreviation child_of := (child Element default_namespace find).
Local Abbreviation step tree :=
  (strict_step Element find text
     (strict_ns Element default_namespace tree)
     (strict_path Element default_namespace tree "groupId")
     (strict_path Element default_namespace tree "artifactId")
     (strict_path Element default_namespace tree "version")).
Local Abbreviation strict_store :=
  (strict_store Element default_namespace find text).

Lemma strict_parse_run t tree :
  truthy (Some t) = true -> fromstring t = inr tree ->
  parse (Some t)
  = match for_each (elements tree) [] (step tree) with
    | Ok d => Parsed d
    | Raise e => Raised e
    end.
Proof.
  intros Ht Hf. unfold _parse_pom_dependencies. rewrite Ht, Hf. simpl.
  unfold strict_elements, strict_ns, strict_path.
  by destruct (truthy (default_namespace tree)).
Qed.

Lemma strict_step_ok tree deps dep :
  texts tree dep -> step tree deps dep = Ok (strict_store tree deps dep).
Proof.
  unfold has_texts, strict_store, strict_key, strict_version, strict_step,
    child.
  destruct (find dep _ _) as [g|]; [|done].
  destruct (find dep _ _) as [a|]; [|done].
  intros ([gs ->] & [as_ ->] & Hv). simpl.
  destruct (find dep _ _) as [v|]; [|done].
  by destruct Hv as [vs ->].
Qed.

Lemma strict_step_raises tree deps dep :
  ~ texts tree dep -> step tree deps dep = Raise AttributeError.
Proof.
  unfold has_texts, strict_step, child.
  destruct (find dep _ _) as [g|]; [|by intros []].
  destruct (find dep _ _) as [a|]; [|by intros []].
  intros H.
  destruct (text g) as [gs|]; [|done].
  destruct (text a) as [as_|]; [|done]. simpl.
  destruct (find dep _ _) as [v|].
  - destruct (text v) as [vs|]; [|done]. exfalso. apply H. eauto.
  - exfalso. apply H. eauto.
Qed.

Lemma strict_for_each_ok tree deps ds :
  Forall (texts tree) ds ->
  for_each ds deps (step tree) = Ok (foldl (strict_store tree) deps ds).
Proof.
  intros H. revert deps. induction H as [|d ds Hd _ IH]; intros deps; [done|].
  cbn [for_each]. rewrite strict_step_ok by done. simpl. apply IH.
Qed.

Lemma strict_store_length tree ds deps :
  length (foldl (strict_store tree) deps ds) <= length deps + length ds.
Proof.
  revert deps. induction ds as [|d ds IH]; intros deps; simpl; [lia|].
  etrans; [apply IH|]. unfold strict_store.
  destruct (key_of tree d) as [k|]; [|lia].
  pose proof (dict_setitem_length deps k (version_of tree d)). lia.
Qed.

Lemma strict_store_origin tree ds deps k v :
  dict_get (foldl (strict_store tree) deps ds) k = Some v ->
  dict_get deps k = Some v
  \/ exists d, d ∈ ds /\ key_of tree d = Some k /\ v = version_of tree d.
Proof.
  revert deps. induction ds as [|d ds IH]; intros deps; simpl; [auto|].
  intros H. apply IH in H as [H|(d' & Hin & Hk & ->)].
  - unfold strict_store in H. destruct (key_of tree d) as [k0|] eqn:E; [|auto].
    rewrite dict_get_setitem in H.
    destruct (decide (k0 = k)) as [->|]; [|auto].
    injection H as <-. right. exists d. split; [left|done].
  - right. exists d'. split; [by right|done].
Qed.

Lemma strict_store_other tree ds deps k :
  (forall d, d ∈ ds -> key_of tree d <> Some k) ->
  dict_get (foldl (strict_store tree) deps ds) k = dict_get deps k.
Proof.
  revert deps. induction ds as [|d ds IH]; intros deps H; simpl; [done|].
  rewrite IH by (intros d' Hin; apply H; by right).
  unfold strict_store. destruct (key_of tree d) as [k0|] eqn:E; [|done].
  rewrite dict_get_setitem. destruct (decide (k0 = k)) as [->|]; [|done].
  exfalso. eapply H; [left|exact E].
Qed.

(** X14: when the XML library returns a tree and every group, artifact
    and version element the loop reads has a text, the strict parser
    returns a snapshot with at most one entry per dependency element, and
    each version in it is null (no version element) or a string without
    white space at either end. *)
Theorem strict_parser_returns (t : str) (tree : Element) :
  truthy (Some t) = true ->
  fromstring t = inr tree ->
  Forall (texts tree) (elements tree) ->
  exists d,
    parse (Some t) = Parsed d
    /\ length d <= length (elements tree)
    /\ forall k v, dict_get d k = Some v ->
         v = PyNone
         \/ exists s, v = PyStr s
              /\ (forall c, head s = Some c -> isspace c = false)
              /\ (forall c, last s = Some c -> isspace c = false).
Proof.
  intros Ht Hf Hall. eexists.
  rewrite (strict_parse_run t tree Ht Hf), strict_for_each_ok by done.
  split; [done|]. split.
  - pose proof (strict_store_length tree (elements tree) []). simpl in *. lia.
  - intros k v [H|(d & _ & _ & ->)]%strict_store_origin; [done|].
    unfold strict_version. destruct (child_of tree d "version"); [|auto].
    right. eexists. split; [done|]. split; [apply strip_head|apply strip_last].
Qed.

(** X15: an element without text (an empty [<groupId/>], say) among the
    children the loop reads makes the strict parser raise [AttributeError]
    at the first such dependency; nothing is returned for the elements
    before it. *)
Theorem strict_parser_raises_on_missing_text (t : str) (tree dep : Element)
    (ds1 ds2 : list Element) :
  truthy (Some t) = true ->
  fromstring t = inr tree ->
  elements tree = ds1 ++ dep :: ds2 ->
  Forall (texts tree) ds1 ->
  ~ texts tree dep ->
  parse (Some t) = Raised AttributeError.
Proof.
  intros Ht Hf Hds H1 Hdep.
  rewrite (strict_parse_run t tree Ht Hf), Hds, for_each_app.
  rewrite strict_for_each_ok by done. simpl.
  by rewrite strict_step_raises.
Qed.

(** X16: the strict parser keeps a dependency that has no version element:
    when the last element that yields a key has no version child, the
    snapshot maps the key to a null version. *)
Theorem strict_parser_null_version (t : str) (tree dep : Element)
    (ds1 ds2 : list Element) (k : str) :
  truthy (Some t) = true ->
  fromstring t = inr tree ->
  elements tree = ds1 ++ dep :: ds2 ->
  Forall (texts tree) (elements tree) ->
  key_of tree dep = Some k ->
  child_of tree dep "version" = None ->
  (forall d, d ∈ ds2 -> key_of tree d <> Some k) ->
  exists d, parse (Some t) = Parsed d /\ dict_get d k = Some PyNone.
Proof.
  intros Ht Hf Hds Hall Hk Hv Hlater. eexists.
  rewrite (strict_parse_run t tree Ht Hf), strict_for_each_ok by done.
  split; [done|]. rewrite Hds, foldl_app. simpl.
  rewrite strict_store_other by done.
  unfold strict_store at 1. rewrite Hk, dict_get_setitem, decide_True by done.
  unfold strict_version. by rewrite Hv.
Qed.

End StrictProperties.

Local Abbreviation toy_parse tree :=
  (_parse_pom_dependencies ToyElement unit (toy_fromstring tree) toy_namespace
     toy_findall toy_find toy_text).

Lemma strict_parser_returns_witness :
  exists d,
    toy_parse toy_tree_good (Some (lit "<project/>")) = Parsed d
    /\ length d <= 2
    /\ forall k v, dict_get d k = Some v ->
         v = PyNone
         \/ exists s, v = PyStr s
              /\ (forall c, head s = Some c -> isspace c = false)
              /\ (forall c, last s = Some c -> isspace c = false).
Proof.
  apply (strict_parser_returns ToyElement unit (toy_fromstring toy_tree_good)
           toy_namespace toy_findall toy_find toy_text
           (lit "<project/>") toy_tree_good).
  - reflexivity.
  - reflexivity.
  - repeat constructor; simpl; eauto.
Defined.

Lemma strict_parser_raises_on_missing_text_witness :
  toy_parse toy_tree_bad (Some (lit "<project/>")) = Raised AttributeError.
Proof.
  apply (strict_parser_raises_on_missing_text ToyElement unit
           (toy_fromstring toy_tree_bad) toy_namespace toy_findall toy_find
           toy_text (lit "<project/>") toy_tree_bad
           (ToyDep toy_dep_no_group_text)
           [ToyDep toy_dep_lib] [ToyDep toy_dep_core]).
  - reflexivity.
  - reflexivity.
  - reflexivity.
  - repeat constructor; simpl; eauto.
  - simpl. intros [[s Hs] _]. discriminate Hs.
Defined.

Lemma strict_parser_null_version_witness :
  exists d,
    toy_parse toy_tree_good (Some (lit "<project/>")) = Parsed d
    /\ dict_get d (lit "org.a:core") = Some PyNone.
Proof.
  apply (strict_parser_null_version ToyElement unit
           (toy_fromstring toy_tree_good) toy_namespace toy_findall toy_find
           toy_text (lit "<project/>") toy_tree_good (ToyDep toy_dep_core)
           [ToyDep toy_dep_lib] []).
  - reflexivity.
  - reflexivity.
  - reflexivity.
  - repeat constructor; simpl; eauto.
  - reflexivity.
  - reflexivity.
  - intros d Hd. by apply elem_of_nil in Hd.
Defined.

(** * The run *)

Lemma record_commits_seen_size cs :
  size (seen (record_commits empty_state cs))
  = length (remove_dups (row_hash <$> rows (record_commits empty_state cs))).
Proof.
  pose proof (record_commits_invariant cs empty_state
                empty_state_invariant) as Hinv.
  unfold seen_matches_rows in Hinv.
  unfold size, set_size. simpl. apply Permutation_length.
  apply NoDup_Permutation; [apply NoDup_elements | apply NoDup_remove_dups |].
  intros h. rewrite elem_of_elements, elem_of_remove_dups, (Hinv h).
  rewrite list_elem_of_fmap. split; intros (r & ? & ?); by exists r.
Qed.

Lemma written_app t1 t2 : written (t1 ++ t2) = written t1 ++ written t2.
Proof. apply omap_app. Qed.

Lemma written_rows {A} (f : A -> list str) (l : list A) :
  written (WriteRow ∘ f <$> l) = f <$> l.
Proof. induction l as [|x l IH]; [done|]. cbn. f_equal. apply IH. Qed.

Section RunProperties.

Variable walker_error : Type.
Variable traverse_commits :
  str -> list str -> list Commit * option walker_error.
Variable str_of_date : datetime -> str.

Local Abbreviation run := (main walker_error traverse_commits str_of_date).
Local Abbreviation mine_run :=
  (mine_repository_run walker_error traverse_commits str_of_date).

Lemma mine_run_cases owner repo :
  let url := lit "https://github.com/" ++ owner ++ lit "/" ++ repo in
  let out := [Print (lit "Analyzing repository: " ++ owner ++ lit "/" ++ repo);
              Print (lit "URL: " ++ url);
              Print (lit "This may take a few minutes..." ++ [10%N]);
              Traverse (url ++ lit ".git") [lit ".xml"]] in
  let name := owner ++ lit "_" ++ repo ++ lit "_dependency_commits.csv" in
  (exists e, mine_run owner repo = (out, WalkerRaised e))
  \/ (exists cs,
        let st := record_commits empty_state cs in
        mine_run owner repo
        = (out ++ [OpenForWriting name; WriteRow csv_header]
             ++ (WriteRow ∘ csv_record str_of_date <$> rows st)
             ++ [Print (lit "Repository: " ++ owner ++ lit "/" ++ repo);
                 Print (lit "Results:");
                 Print (lit "Number of commits with dependency changes: "
                          ++ str_of_nat (size (seen st)));
                 Print (lit "Commit list saved to: " ++ name)],
           Returned)).
Proof.
  intros url out name. unfold mine_repository_run.
  destruct (traverse_commits _ _) as [cs [e|]].
  - left. exists e. by rewrite mine_repository_ok.
  - right. exists cs. by rewrite mine_repository_ok.
Qed.

(** X17: a run never ends in an exception of the loops; it asks the walker
    for commits exactly when it is given two arguments; it opens the output
    file, and writes records, exactly when it returns normally, so a run that
    the walker aborts leaves no file, not even a partial one; and with any
    other number of arguments it exits with status 1. *)
Theorem run_outcomes (argv : list str) :
  (forall e, (run argv).2 <> Uncaught e)
  /\ (length argv = 3 <-> exists url types, Traverse url types ∈ (run argv).1)
  /\ ((run argv).2 = Returned
      <-> exists name, OpenForWriting name ∈ (run argv).1)
  /\ ((run argv).2 = Returned <-> written (run argv).1 <> [])
  /\ (length argv <> 3 -> (run argv).2 = Exited 1).
Proof.
  assert (forall owner repo,
            (forall e, (mine_run owner repo).2 <> Uncaught e)
            /\ (exists url types, Traverse url types ∈ (mine_run owner repo).1)
            /\ ((mine_run owner repo).2 = Returned
                <-> exists name, OpenForWriting name ∈ (mine_run owner repo).1)
            /\ ((mine_run owner repo).2 = Returned
                <-> written (mine_run owner repo).1 <> [])) as Hmine.
  { intros owner repo.
    destruct (mine_run_cases owner repo) as [[e ->]|[cs ->]]; simpl.
    - split; [done|]. split.
      + do 2 eexists. do 3 right. left.
      + split; (split; [done|]).
        * intros [name H]. repeat (apply elem_of_cons in H as [H|H]; [done|]).
          by apply elem_of_nil in H.
        * done.
    - split; [done|]. split.
      + do 2 eexists. do 3 right. left.
      + split; (split; [|done]); intros _.
        * eexists. do 4 right. left.
        * done. }
  destruct argv as [|a0 [|a1 [|a2 [|a3 rest]]]];
    try (simpl; split; [done|]; split;
         [split; [done|];
          intros (u & t & H);
          repeat (apply elem_of_cons in H as [H|H]; [done|]);
          by apply elem_of_nil in H|];
         split; [split; [done|];
                 intros (n & H);
                 repeat (apply elem_of_cons in H as [H|H]; [done|]);
                 by apply elem_of_nil in H|];
         split; [split; done | done]).
  destruct (Hmine a1 a2) as (H1 & H2 & H3 & H4). simpl.
  split; [done|]. split; [done|]. split; [done|]. split; [done|]. done.
Qed.

(** X18: when a run returns, it was given an owner and a repository, the
    walker did not fail, and the records it wrote are the header followed by
    the records of the mined rows, one per row and in the rows' order, each
    of five fields; the number of commits it prints is the number of
    distinct values in the first column of the data records. *)
Theorem written_records_are_consistent (argv : list str) :
  (run argv).2 = Returned ->
  exists prog owner repo commits st,
    argv = [prog; owner; repo]
    /\ traverse_commits
         (lit "https://github.com/" ++ owner ++ lit "/" ++ repo ++ lit ".git")
         [lit ".xml"]
       = (commits, None)
    /\ mine_repository commits = Ok st
    /\ written (run argv).1
       = csv_header :: (csv_record str_of_date <$> rows st)
    /\ length (written (run argv).1) = S (length (rows st))
    /\ Forall (fun fields => length fields = 5) (written (run argv).1)
    /\ Print (lit "Number of commits with dependency changes: "
                ++ str_of_nat
                     (length (remove_dups
                                (hd [] <$> (csv_record str_of_date
                                              <$> rows st)))))
       ∈ (run argv).1.
Proof.
  destruct argv as [|a0 [|a1 [|a2 [|a3 rest]]]]; try done.
  change (run [a0; a1; a2]) with (mine_run a1 a2).
  unfold mine_repository_run.
  assert ((lit "https://github.com/" ++ a1 ++ lit "/" ++ a2) ++ lit ".git"
          = lit "https://github.com/" ++ a1 ++ lit "/" ++ a2 ++ lit ".git")
    as -> by (by rewrite <- !app_assoc).
  destruct (traverse_commits _ _) as [cs [e|]] eqn:Hwalk;
    rewrite mine_repository_ok; [done|]. intros _.
  set (st := record_commits _ cs).
  exists a0, a1, a2, cs, st. cbn [fst].
  assert (written
            (([Print (lit "Analyzing repository: " ++ a1 ++ lit "/" ++ a2);
               Print (lit "URL: "
                        ++ lit "https://github.com/" ++ a1 ++ lit "/" ++ a2);
               Print (lit "This may take a few minutes..." ++ [10%N])]
                ++ [Traverse
                      (lit "https://github.com/" ++ a1 ++ lit "/" ++ a2
                         ++ lit ".git")
                      [lit ".xml"]])
               ++ [OpenForWriting
                     (a1 ++ lit "_" ++ a2 ++ lit "_dependency_commits.csv");
                   WriteRow csv_header]
               ++ (WriteRow ∘ csv_record str_of_date <$> rows st)
               ++ [Print (lit "Repository: " ++ a1 ++ lit "/" ++ a2);
                   Print (lit "Results:");
                   Print (lit "Number of commits with dependency changes: "
                            ++ str_of_nat (size (seen st)));
                   Print (lit "Commit list saved to: "
                            ++ a1 ++ lit "_" ++ a2
                            ++ lit "_dependency_commits.csv")])
          = csv_header :: (csv_record str_of_date <$> rows st)) as Hw.
  { rewrite !written_app, written_rows. cbn. by rewrite app_nil_r. }
  split; [done|]. split; [done|]. split; [apply mine_repository_ok|].
  rewrite Hw. split; [done|]. split; [|split].
  - simpl. by rewrite length_fmap.
  - constructor; [done|]. apply Forall_fmap, Forall_true. done.
  - rewrite <- list_fmap_compose.
    change (hd [] ∘ csv_record str_of_date) with row_hash.
    unfold st. rewrite <- record_commits_seen_size.
    rewrite !elem_of_app. do 3 right. do 2 right. left.
Qed.

End RunProperties.

Lemma written_records_are_consistent_witness :
  exists prog owner repo commits st,
    [lit "miner"; lit "a"; lit "b"] = [prog; owner; repo]
    /\ toy_walker
         (lit "https://github.com/" ++ owner ++ lit "/" ++ repo ++ lit ".git")
         [lit ".xml"]
       = (commits, None)
    /\ mine_repository commits = Ok st
    /\ written (main unit toy_walker toy_date
                  [lit "miner"; lit "a"; lit "b"]).1
       = csv_header :: (csv_record toy_date <$> rows st)
    /\ length (written (main unit toy_walker toy_date
                          [lit "miner"; lit "a"; lit "b"]).1)
       = S (length (rows st))
    /\ Forall (fun fields => length fields = 5)
              (written (main unit toy_walker toy_date
                          [lit "miner"; lit "a"; lit "b"]).1)
    /\ Print (lit "Number of commits with dependency changes: "
                ++ str_of_nat
                     (length (remove_dups
                                (hd [] <$> (csv_record toy_date
                                              <$> rows st)))))
       ∈ (main unit toy_walker toy_date [lit "miner"; lit "a"; lit "b"]).1.
Proof.
  apply (written_records_are_consistent unit toy_walker toy_date
           [lit "miner"; lit "a"; lit "b"]).
  vm_compute. reflexivity.
Defined.
